(** * Mezon MCP server: identifier resolution and tool dispatch

    A shallow embedding of [src/index.ts].  The file follows the source from
    top to bottom: the JavaScript string operations the resolvers use, the
    directory client they read, [findClan] and [findChannel], the two zod
    schemas, the [CallToolRequestSchema] handler and [main].

    Conventions.
    - A JavaScript string is the [string] of the bytes of its UTF-8
      encoding, so that the ASCII characters are the bytes below 128, and
      concatenation, equality, search and replacement of a pattern act on
      the encodings as they do on the strings.
    - [String.prototype.toLowerCase] follows the Unicode case tables, which
      are no part of the program: it is the method of the class [LowerCase],
      and everything is stated for every member of the class.  The laws of
      the class are facts of the Unicode algorithm: on ASCII strings only
      the letters [A]-[Z] change, a leading [#] is kept and does not change
      the rest, and no [#] appears or disappears.  The worked cases run with
      the ASCII member of the class.
    - A [Collection] (an insertion-ordered map) is the list of its values in
      insertion order: [size] is [length], [first()] is the head, [filter] and
      [map] keep the order.
    - An [await]ed call on the platform client is an oracle of the
      [MezonClient] record: the answer it gives is part of the directory, the
      fact that it was called is recorded in the trace of the computation.
    - [throw new Error(m)] is the thrown value [JsError k m]; the kind [k]
      names the throw site after the error taxonomy of the specification and
      is not visible to the caller, who sees the message [m]. *)

From Stdlib Require Import String Ascii List Bool Arith ZArith QArith Qround Lia.
From Stdlib Require Import DecimalString.
Import ListNotations.
Local Open Scope list_scope.
Local Open Scope string_scope.

(** ** JavaScript strings *)

Module JsString.

(** The double-quote character, used by the message templates. *)
Definition dquote : string := String (ascii_of_nat 34) EmptyString.

Definition hash : ascii := ascii_of_nat 35.

(** [c.toLowerCase()] on one ASCII character. *)
Definition lower_ascii (c : ascii) : ascii :=
  let n := nat_of_ascii c in
  if (65 <=? n)%nat && (n <=? 90)%nat then ascii_of_nat (n + 32) else c.

(** [s.toLowerCase()] for a string of ASCII characters: the letters [A]-[Z]
    become [a]-[z]. *)
Fixpoint ascii_toLowerCase (s : string) : string :=
  match s with
  | EmptyString => EmptyString
  | String c r => String (lower_ascii c) (ascii_toLowerCase r)
  end.

(** Whether every character of [s] is an ASCII character. *)
Fixpoint is_ascii (s : string) : bool :=
  match s with
  | EmptyString => true
  | String c r => (nat_of_ascii c <? 128)%nat && is_ascii r
  end.

(** [s.startsWith(p)] *)
Fixpoint startsWith (p s : string) : bool :=
  match p, s with
  | EmptyString, _ => true
  | String _ _, EmptyString => false
  | String a p', String b s' => Ascii.eqb a b && startsWith p' s'
  end.

(** [s.slice(n)] *)
Fixpoint drop (n : nat) (s : string) : string :=
  match n, s with
  | O, _ => s
  | S _, EmptyString => EmptyString
  | S n', String _ r => drop n' r
  end.

(** [s.replace(pat, rep)] with a string pattern: only the first occurrence
    of [pat] is replaced.  ([rep] has no [$] pattern in the source.) *)
Fixpoint replace (pat rep s : string) : string :=
  if startsWith pat s then rep ++ drop (String.length pat) s
  else match s with
       | EmptyString => EmptyString
       | String c r => String c (replace pat rep r)
       end.

(** [s.includes(sub)] *)
Fixpoint includes (sub s : string) : bool :=
  startsWith sub s ||
  match s with
  | EmptyString => false
  | String _ r => includes sub r
  end.

(** [xs.join(sep)] *)
Fixpoint join (sep : string) (xs : list string) : string :=
  match xs with
  | [] => EmptyString
  | [x] => x
  | x :: rest => x ++ sep ++ join sep rest
  end.

(** Truthiness of a string: only the empty string is falsy. *)
Definition truthy (s : string) : bool :=
  match s with EmptyString => false | String _ _ => true end.

(** The string with [c] inserted before position [i] (at the end when [i]
    is past the end). *)
Fixpoint insert_at (i : nat) (c : ascii) (s : string) : string :=
  match i, s with
  | O, _ => String c s
  | S _, EmptyString => String c EmptyString
  | S i', String a r => String a (insert_at i' c r)
  end.

End JsString.

Import JsString.

(** [String.prototype.toLowerCase].  Lower-casing is not done character by
    character (the form of a Greek final sigma depends on its neighbours, and
    one character may become two), so only what holds of whole strings is
    required. *)
Class LowerCase : Type := {
  toLowerCase : string -> string;
  toLowerCase_ascii :
    forall s, is_ascii s = true -> toLowerCase s = ascii_toLowerCase s;
  toLowerCase_hash_prefix :
    forall s, toLowerCase (String hash s) = String hash (toLowerCase s);
  toLowerCase_includes_hash :
    forall s, includes "#" (toLowerCase s) = includes "#" s
}.

(** ** JSON values and zod issues *)

(** A decoded JSON value.  A JSON number is a finite double, hence a
    rational.  The schemas look inside numbers and strings only; of an array
    or an object they see the type. *)
Inductive Json : Type :=
| JNull
| JBool (b : bool)
| JNumber (q : Q)
| JString (s : string)
| JArray
| JObject.

(** [request.params.arguments]: a JSON object, as the list of its entries. *)
Definition JsObject : Type := list (string * Json).

(** [obj[key]]; [None] is [undefined]. *)
Fixpoint get (key : string) (obj : JsObject) : option Json :=
  match obj with
  | [] => None
  | (k, v) :: rest => if String.eqb k key then Some v else get key rest
  end.

(** One entry of [ZodError.errors]. *)
Record ZodIssue : Type := mkIssue {
  path : list string;
  issue_message : string
}.

(** ** The directory *)

(** A channel of the platform.  [isTextChannel] is the outcome of
    [channel instanceof TextChannel]; [channel_guild_id] and
    [channel_guild_name] are [channel.guild.id] and [channel.guild.name]. *)
Record Channel : Type := mkChannel {
  channel_id : string;
  channel_name : string;
  isTextChannel : bool;
  channel_guild_id : string;
  channel_guild_name : string
}.

(** A server ("clan" / "guild").  [channels_cache] is
    [guild.channels.cache]. *)
Record Clan : Type := mkClan {
  clan_id : string;
  clan_name : string;
  channels_cache : list Channel
}.

(** A message as delivered by [channel.messages.fetch]: [author_tag] is
    [msg.author.tag], [createdAt_iso] is [msg.createdAt.toISOString()]. *)
Record Message : Type := mkMessage {
  author_tag : string;
  content : string;
  createdAt_iso : string
}.

(** The error taxonomy of the specification; one tag per throw site. *)
Inductive ErrorKind : Type :=
| ValidationError
| NotFound
| Ambiguous
| MultiServerNoDefault
| WrongType
| UnknownTool
| StartupError
| PlatformError.

(** A thrown value: [new Error(message)], tagged with the throw site, or the
    [ZodError] of a failed [parse]. *)
Inductive Exception : Type :=
| JsError (kind : ErrorKind) (message : string)
| ZodError (errors : list ZodIssue).

Definition kind_of (e : Exception) : ErrorKind :=
  match e with
  | JsError k _ => k
  | ZodError _ => ValidationError
  end.

(** Outcome of an awaited fetch by ID: the promise resolves, possibly to
    nothing ([undefined] / [null]), or rejects. *)
Inductive Fetched (A : Type) : Type :=
| Resolved (v : option A)
| Rejected.
Arguments Resolved {A} v.
Arguments Rejected {A}.

(** The part of [MezonClient] the program consumes. *)
Record MezonClient : Type := mkClient {
  (* client.clans *)
  clans : list Clan;
  (* client.clans.fetch(id) *)
  clans_fetch : string -> Fetched Clan;
  (* client.channels.fetch(id) *)
  channels_fetch : string -> Fetched Channel;
  (* (await channel.send(message)).id *)
  channel_send : Channel -> string -> Exception + string;
  (* Array.from((await channel.messages.fetch({ limit })).values()) *)
  messages_fetch : Channel -> Q -> Exception + list Message;
  (* client.login(token) *)
  login : string -> Exception + unit
}.

(** ** Computations with a trace *)

(** What the program does to the outside world. *)
Inductive Effect : Type :=
| ClansFetch (ident : string)
| ChannelsFetch (ident : string)
| ChannelSend (channel : string) (text : string)
| MessagesFetch (channel : string) (limit : Q)
| ClientLogin (token : string)
| ServerConnect
| ConsoleError (line : string) (error : option Exception)
| UncaughtException (error : Exception)
| ProcessExit (status : Z).

(** An asynchronous computation: the effects it performed, in order, and
    either the value it threw or the value it returned. *)
Definition Async (A : Type) : Type := (list Effect * (Exception + A))%type.

Definition ret {A} (a : A) : Async A := ([], inr a).
Definition throw {A} (e : Exception) : Async A := ([], inl e).
Definition perform (e : Effect) : Async unit := ([e], inr tt).

(** [await] on the answer of the platform. *)
Definition await {A} (r : Exception + A) : Async A := ([], r).

Definition bind {A B} (m : Async A) (f : A -> Async B) : Async B :=
  match m with
  | (t, inl e) => (t, inl e)
  | (t, inr a) => let (t', r) := f a in ((t ++ t')%list, r)
  end.

(** [try { m } catch (error) { h error }] *)
Definition try_catch {A} (m : Async A) (h : Exception -> Async A) : Async A :=
  match m with
  | (t, inl e) => let (t', r) := h e in ((t ++ t')%list, r)
  | (t, inr a) => (t, inr a)
  end.

Notation "x <- m ;; k" := (bind m (fun x => k))
  (at level 61, m at next level, right associativity).
Notation "m ;;; k" := (bind m (fun _ => k))
  (at level 61, right associativity).

Definition trace {A} (m : Async A) : list Effect := fst m.
Definition outcome {A} (m : Async A) : Exception + A := snd m.

(** ** The resolvers *)

Section Resolution.

Context {L : LowerCase}.

Variable client : MezonClient.

(** [`"${g.name}"`] *)
Definition quoted_name (g : Clan) : string := dquote ++ clan_name g ++ dquote.

(** [Array.from(client.clans.values()).map(g => `"${g.name}"`).join(', ')] *)
Definition available_servers : string :=
  join ", " (map quoted_name (clans client)).

(** [`${g.name} (ID: ${g.id})`] *)
Definition clan_with_id (g : Clan) : string :=
  clan_name g ++ " (ID: " ++ clan_id g ++ ")".

(** [g => g.name.toLowerCase() === guildIdentifier.toLowerCase()] *)
Definition clan_name_matches (guildIdentifier : string) (g : Clan) : bool :=
  String.eqb (toLowerCase (clan_name g)) (toLowerCase guildIdentifier).

(** Lines 19-28: no server was named. *)
Definition findClan_default : Async Clan :=
  match clans client with
  | [g] => ret g
  | _ =>
      throw (JsError MultiServerNoDefault
        ("Bot is in multiple servers. Please specify server name or ID. Available servers: "
         ++ available_servers))
  end.

(** Lines 36-49: the body of the [catch] block. *)
Definition findClan_by_name (guildIdentifier : string) : Async Clan :=
  let clans := filter (clan_name_matches guildIdentifier) (clans client) in
  match clans with
  | [] =>
      throw (JsError NotFound
        ("Clan " ++ dquote ++ guildIdentifier ++ dquote
         ++ " not found. Available servers: " ++ available_servers))
  | [g] => ret g
  | _ :: _ :: _ =>
      throw (JsError Ambiguous
        ("Multiple servers found with name " ++ dquote ++ guildIdentifier ++ dquote
         ++ ": " ++ join ", " (map clan_with_id clans)
         ++ ". Please specify the server ID."))
  end.

(** [!guildIdentifier] *)
Definition absent (guildIdentifier : option string) : bool :=
  match guildIdentifier with
  | Some ident => negb (truthy ident)
  | None => true
  end.

(** [async function findClan(guildIdentifier?: string)] *)
Definition findClan (guildIdentifier : option string) : Async Clan :=
  match guildIdentifier with
  | Some ident =>
      if negb (truthy ident) then findClan_default
      else
        perform (ClansFetch ident) ;;;
        match clans_fetch client ident with
        | Resolved (Some guild) => ret guild
        | Resolved None =>
            throw (JsError NotFound
              ("Clan " ++ dquote ++ ident ++ dquote ++ " not found"))
        | Rejected => findClan_by_name ident
        end
  | None => findClan_default
  end.

(** The filter callback of lines 67-70. *)
Definition channel_name_matches (channelIdentifier : string) (channel : Channel) : bool :=
  isTextChannel channel &&
  (String.eqb (toLowerCase (channel_name channel)) (toLowerCase channelIdentifier)
   || String.eqb (toLowerCase (channel_name channel))
        (replace "#" EmptyString (toLowerCase channelIdentifier))).

(** [`"#${c.name}"`] *)
Definition quoted_channel (c : Channel) : string :=
  dquote ++ "#" ++ channel_name c ++ dquote.

(** [`#${c.name} (${c.id})`] *)
Definition channel_with_id (c : Channel) : string :=
  "#" ++ channel_name c ++ " (" ++ channel_id c ++ ")".

(** Lines 66-83: the body of the [catch] block. *)
Definition findChannel_by_name (guild : Clan) (channelIdentifier : string) : Async Channel :=
  let channels := filter (channel_name_matches channelIdentifier) (channels_cache guild) in
  match channels with
  | [] =>
      let availableChannels :=
        join ", " (map quoted_channel (filter isTextChannel (channels_cache guild))) in
      throw (JsError NotFound
        ("Channel " ++ dquote ++ channelIdentifier ++ dquote
         ++ " not found in server " ++ dquote ++ clan_name guild ++ dquote
         ++ ". Available channels: " ++ availableChannels))
  | [c] => ret c
  | _ :: _ :: _ =>
      throw (JsError Ambiguous
        ("Multiple channels found with name " ++ dquote ++ channelIdentifier ++ dquote
         ++ " in server " ++ dquote ++ clan_name guild ++ dquote
         ++ ": " ++ join ", " (map channel_with_id channels)
         ++ ". Please specify the channel ID."))
  end.

(** Line 85. *)
Definition not_a_text_channel (guild : Clan) (channelIdentifier : string) : Exception :=
  JsError WrongType
    ("Channel " ++ dquote ++ channelIdentifier ++ dquote
     ++ " is not a text channel or not found in server "
     ++ dquote ++ clan_name guild ++ dquote).

(** [channel instanceof TextChannel && channel.guild.id === guild.id] *)
Definition accepted_by_id (guild : Clan) (fetched : option Channel) : option Channel :=
  match fetched with
  | Some channel =>
      if isTextChannel channel && String.eqb (channel_guild_id channel) (clan_id guild)
      then Some channel else None
  | None => None
  end.

(** [async function findChannel(channelIdentifier, guildIdentifier?)] *)
Definition findChannel (channelIdentifier : string) (guildIdentifier : option string)
  : Async Channel :=
  guild <- findClan guildIdentifier ;;
  perform (ChannelsFetch channelIdentifier) ;;;
  match channels_fetch client channelIdentifier with
  | Resolved fetched =>
      match accepted_by_id guild fetched with
      | Some channel => ret channel
      | None => throw (not_a_text_channel guild channelIdentifier)
      end
  | Rejected => findChannel_by_name guild channelIdentifier
  end.

End Resolution.

(** ** The validation schemas *)

Module Zod.

(** The type name zod reports for a received value. *)
Definition parsedType (v : Json) : string :=
  match v with
  | JNull => "null"
  | JBool _ => "boolean"
  | JNumber _ => "number"
  | JString _ => "string"
  | JArray => "array"
  | JObject => "object"
  end.

Definition invalid_type (p : list string) (expected : string) (v : option Json) : ZodIssue :=
  match v with
  | None => mkIssue p "Required"
  | Some j => mkIssue p ("Expected " ++ expected ++ ", received " ++ parsedType j)
  end.

(** A schema applied at a path to the value found there ([None] when the
    key is missing): the parsed value or the issues. *)
Definition Schema (A : Type) : Type := list string -> option Json -> list ZodIssue + A.

(** [z.string()] *)
Definition string_ : Schema string :=
  fun p v =>
    match v with
    | Some (JString s) => inr s
    | _ => inl [invalid_type p "string" v]
    end.

(** A refinement of [z.number()]: the message when it fails. *)
Definition Refinement : Type := Q -> option string.

Definition show (n : Z) : string := NilZero.string_of_int (Z.to_int n).

(** [.min(n)] *)
Definition min (n : Z) : Refinement :=
  fun q => if Qle_bool (inject_Z n) q then None
           else Some ("Number must be greater than or equal to " ++ show n)%string.

(** [.max(n)] *)
Definition max (n : Z) : Refinement :=
  fun q => if Qle_bool q (inject_Z n) then None
           else Some ("Number must be less than or equal to " ++ show n)%string.

Fixpoint run_checks (p : list string) (checks : list Refinement) (q : Q) : list ZodIssue :=
  match checks with
  | [] => []
  | c :: rest =>
      match c q with
      | Some m => mkIssue p m :: run_checks p rest q
      | None => run_checks p rest q
      end
  end.

(** [z.number()] followed by its checks; every failed check is reported. *)
Definition number (checks : list Refinement) : Schema Q :=
  fun p v =>
    match v with
    | Some (JNumber q) =>
        match run_checks p checks q with
        | [] => inr q
        | issues => inl issues
        end
    | _ => inl [invalid_type p "number" v]
    end.

(** [.optional()] *)
Definition optional {A} (s : Schema A) : Schema (option A) :=
  fun p v =>
    match v with
    | None => inr None
    | Some _ => match s p v with inl issues => inl issues | inr a => inr (Some a) end
    end.

(** [.default(d)] *)
Definition default {A} (d : A) (s : Schema A) : Schema A :=
  fun p v =>
    match v with
    | None => inr d
    | Some _ => s p v
    end.

(** The field [key] of the object under validation. *)
Definition field {A} (s : Schema A) (key : string) (obj : JsObject) : list ZodIssue + A :=
  s [key] (get key obj).

Definition issues_of {A} (r : list ZodIssue + A) : list ZodIssue :=
  match r with inl issues => issues | inr _ => [] end.

End Zod.

(** The parsed arguments of [send-message]. *)
Record SendMessageArgs : Type := mkSendMessageArgs {
  sm_server : option string;
  sm_channel : string;
  sm_message : string
}.

(** The parsed arguments of [read-messages]. *)
Record ReadMessagesArgs : Type := mkReadMessagesArgs {
  rm_server : option string;
  rm_channel : string;
  rm_limit : Q
}.

(** [z.number().min(1).max(100).default(50)] *)
Definition limit_schema : Zod.Schema Q :=
  Zod.default (inject_Z 50) (Zod.number [Zod.min 1; Zod.max 100]).

(** [SendMessageSchema.parse(args)]: the parsed object, or the issues of
    every field in the order of the schema.  [args] is [None] when the
    request carries no arguments. *)
Definition SendMessageSchema_parse (args : option JsObject) : list ZodIssue + SendMessageArgs :=
  match args with
  | None => inl [Zod.invalid_type [] "object" None]
  | Some obj =>
      let server := Zod.field (Zod.optional Zod.string_) "server" obj in
      let channel := Zod.field Zod.string_ "channel" obj in
      let message := Zod.field Zod.string_ "message" obj in
      match server, channel, message with
      | inr s, inr c, inr m => inr (mkSendMessageArgs s c m)
      | _, _, _ =>
          inl (Zod.issues_of server ++ Zod.issues_of channel ++ Zod.issues_of message)%list
      end
  end.

(** [ReadMessagesSchema.parse(args)] *)
Definition ReadMessagesSchema_parse (args : option JsObject) : list ZodIssue + ReadMessagesArgs :=
  match args with
  | None => inl [Zod.invalid_type [] "object" None]
  | Some obj =>
      let server := Zod.field (Zod.optional Zod.string_) "server" obj in
      let channel := Zod.field Zod.string_ "channel" obj in
      let limit := Zod.field limit_schema "limit" obj in
      match server, channel, limit with
      | inr s, inr c, inr l => inr (mkReadMessagesArgs s c l)
      | _, _, _ =>
          inl (Zod.issues_of server ++ Zod.issues_of channel ++ Zod.issues_of limit)%list
      end
  end.

(** [Schema.parse(args)] as a computation: a failed parse throws [ZodError]. *)
Definition parse {A} (r : list ZodIssue + A) : Async A :=
  match r with
  | inl issues => throw (ZodError issues)
  | inr a => ret a
  end.

(** ** The tool handler *)

(** One element of [formattedMessages], with its keys in the order of the
    object literal. *)
Record FormattedMessage : Type := mkFormatted {
  fm_channel : string;
  fm_server : string;
  fm_author : string;
  fm_content : string;
  fm_timestamp : string
}.

(** The keys of a formatted message and their values, as [JSON.stringify]
    meets them. *)
Definition entries (m : FormattedMessage) : list (string * string) :=
  [("channel", fm_channel m); ("server", fm_server m); ("author", fm_author m);
   ("content", fm_content m); ("timestamp", fm_timestamp m)].

Module JSON.

Definition hex_digit (n : nat) : ascii :=
  ascii_of_nat (if (n <? 10)%nat then 48 + n else 87 + n).

(** The escape of one character inside a JSON string. *)
Definition quote_char (c : ascii) : string :=
  let n := nat_of_ascii c in
  if (n =? 34)%nat then "\" ++ dquote
  else if (n =? 92)%nat then "\\"
  else if (n =? 8)%nat then "\b"
  else if (n =? 9)%nat then "\t"
  else if (n =? 10)%nat then "\n"
  else if (n =? 12)%nat then "\f"
  else if (n =? 13)%nat then "\r"
  else if (n <? 32)%nat then
    "\u00" ++ String (hex_digit (n / 16)) (String (hex_digit (n mod 16)) EmptyString)
  else String c EmptyString.

Fixpoint quote_chars (s : string) : string :=
  match s with
  | EmptyString => EmptyString
  | String c r => quote_char c ++ quote_chars r
  end.

Definition quote (s : string) : string := dquote ++ quote_chars s ++ dquote.

Definition newline : string := String (ascii_of_nat 10) EmptyString.

Definition member (kv : string * string) : string :=
  "    " ++ quote (fst kv) ++ ": " ++ quote (snd kv).

Definition object (m : FormattedMessage) : string :=
  "  {" ++ newline ++ join ("," ++ newline) (map member (entries m)) ++ newline ++ "  }".

(** [JSON.stringify(formattedMessages, null, 2)] *)
Definition stringify (ms : list FormattedMessage) : string :=
  match ms with
  | [] => "[]"
  | _ => "[" ++ newline ++ join ("," ++ newline) (map object ms) ++ newline ++ "]"
  end.

(** Reading the text back: the reader accepts what [stringify] writes for
    these objects, with their five keys in their order, and nothing else. *)

(** The rest of [s] after the prefix [p]. *)
Definition expect (p s : string) : option string :=
  if startsWith p s then Some (drop (String.length p) s) else None.

Definition hex_value (c : ascii) : option nat :=
  let n := nat_of_ascii c in
  if (48 <=? n)%nat && (n <=? 57)%nat then Some (n - 48)%nat
  else if (97 <=? n)%nat && (n <=? 102)%nat then Some (n - 87)%nat
  else None.

(** The character a one-letter escape stands for. *)
Definition unescape (e : ascii) : option ascii :=
  let n := nat_of_ascii e in
  if (n =? 34)%nat || (n =? 92)%nat then Some e
  else if (n =? 98)%nat then Some (ascii_of_nat 8)
  else if (n =? 116)%nat then Some (ascii_of_nat 9)
  else if (n =? 110)%nat then Some (ascii_of_nat 10)
  else if (n =? 102)%nat then Some (ascii_of_nat 12)
  else if (n =? 114)%nat then Some (ascii_of_nat 13)
  else None.

Definition push (c : ascii) (r : option (string * string)) : option (string * string) :=
  match r with
  | Some (s, rest) => Some (String c s, rest)
  | None => None
  end.

(** The characters of a JSON string up to its closing quote, and what
    follows the quote. *)
Fixpoint unquote_chars (s : string) : option (string * string) :=
  match s with
  | EmptyString => None
  | String c r =>
      if (nat_of_ascii c =? 34)%nat then Some (EmptyString, r)
      else if (nat_of_ascii c =? 92)%nat then
        match r with
        | EmptyString => None
        | String e r1 =>
            match unescape e with
            | Some a => push a (unquote_chars r1)
            | None =>
                match r1 with
                | String z1 (String z2 (String h1 (String h2 r2))) =>
                    if (nat_of_ascii e =? 117)%nat && (nat_of_ascii z1 =? 48)%nat
                       && (nat_of_ascii z2 =? 48)%nat
                    then match hex_value h1, hex_value h2 with
                         | Some a, Some b =>
                             push (ascii_of_nat (16 * a + b)) (unquote_chars r2)
                         | _, _ => None
                         end
                    else None
                | _ => None
                end
            end
        end
      else push c (unquote_chars r)
  end.

(** A quoted string and what follows it. *)
Definition read_string (s : string) : option (string * string) :=
  match expect dquote s with
  | Some r => unquote_chars r
  | None => None
  end.

(** The value of the member [key] and what follows it. *)
Definition read_member (key s : string) : option (string * string) :=
  match expect ("    " ++ quote key ++ ": ") s with
  | Some r => read_string r
  | None => None
  end.

(** The member [key] after a comma and a new line. *)
Definition next_member (key s : string) : option (string * string) :=
  match expect ("," ++ newline) s with
  | Some r1 => read_member key r1
  | None => None
  end.

(** One object and what follows it. *)
Definition read_object (s : string) : option (FormattedMessage * string) :=
  match expect ("  {" ++ newline) s with
  | None => None
  | Some s0 =>
  match read_member "channel" s0 with
  | None => None
  | Some (channel, s1) =>
  match next_member "server" s1 with
  | None => None
  | Some (server, s2) =>
  match next_member "author" s2 with
  | None => None
  | Some (author, s3) =>
  match next_member "content" s3 with
  | None => None
  | Some (content, s4) =>
  match next_member "timestamp" s4 with
  | None => None
  | Some (timestamp, s5) =>
  match expect (newline ++ "  }") s5 with
  | None => None
  | Some rest => Some (mkFormatted channel server author content timestamp, rest)
  end end end end end end end.

(** The objects up to the closing bracket. *)
Fixpoint read_objects (fuel : nat) (s : string) : option (list FormattedMessage) :=
  match fuel with
  | O => None
  | S fuel' =>
      match read_object s with
      | None => None
      | Some (m, rest) =>
          if String.eqb rest (newline ++ "]") then Some [m]
          else match expect ("," ++ newline) rest with
               | Some r => option_map (cons m) (read_objects fuel' r)
               | None => None
               end
      end
  end.

(** The array of objects that the text [s] denotes. *)
Definition read (s : string) : option (list FormattedMessage) :=
  if String.eqb s "[]" then Some []
  else match expect ("[" ++ newline) s with
       | Some r => read_objects (String.length s) r
       | None => None
       end.

End JSON.

(** The value a tool call returns: [{ content: [{ type: "text", text }] }]. *)
Record ToolResult : Type := mkToolResult {
  text : string
}.

Section Server.

Context {L : LowerCase}.

Variable client : MezonClient.

(** The callback of [Array.from(messages.values()).map(...)]. *)
Definition format_message (channel : Channel) (msg : Message) : FormattedMessage :=
  {| fm_channel := "#" ++ channel_name channel;
     fm_server := channel_guild_name channel;
     fm_author := author_tag msg;
     fm_content := content msg;
     fm_timestamp := createdAt_iso msg |}.

(** [case "send-message"] *)
Definition send_message (args : option JsObject) : Async ToolResult :=
  parsed <- parse (SendMessageSchema_parse args) ;;
  channel <- findChannel client (sm_channel parsed) None ;;
  perform (ChannelSend (channel_id channel) (sm_message parsed)) ;;;
  sent_id <- await (channel_send client channel (sm_message parsed)) ;;
  ret (mkToolResult
         ("Message sent successfully to #" ++ channel_name channel
          ++ " in " ++ channel_guild_name channel
          ++ ". Message ID: " ++ sent_id)).

(** The array [formattedMessages] of [case "read-messages"]. *)
Definition read_messages_formatted (args : option JsObject) : Async (list FormattedMessage) :=
  parsed <- parse (ReadMessagesSchema_parse args) ;;
  channel <- findChannel client (rm_channel parsed) None ;;
  perform (MessagesFetch (channel_id channel) (rm_limit parsed)) ;;;
  messages <- await (messages_fetch client channel (rm_limit parsed)) ;;
  ret (map (format_message channel) messages).

(** [case "read-messages"] *)
Definition read_messages (args : option JsObject) : Async ToolResult :=
  formattedMessages <- read_messages_formatted args ;;
  ret (mkToolResult (JSON.stringify formattedMessages)).

(** [`${e.path.join(".")}: ${e.message}`] *)
Definition show_issue (e : ZodIssue) : string :=
  join "." (path e) ++ ": " ++ issue_message e.

(** The [catch] block of the handler. *)
Definition on_error (error : Exception) : Async ToolResult :=
  match error with
  | ZodError errors =>
      throw (JsError ValidationError
        ("Invalid arguments: " ++ join ", " (map show_issue errors)))
  | _ => throw error
  end.

(** [server.setRequestHandler(CallToolRequestSchema, async (request) => ...)]
    applied to [request.params.name] and [request.params.arguments]. *)
Definition handler (name : string) (args : option JsObject) : Async ToolResult :=
  try_catch
    (if String.eqb name "send-message" then send_message args
     else if String.eqb name "read-messages" then read_messages args
     else throw (JsError UnknownTool ("Unknown tool: " ++ name)))
    on_error.

End Server.

(** ** Startup and the life of the process *)


Section Process.

Context {L : LowerCase}.

Variable client : MezonClient.

(** [process.env.MEZON_TOKEN] *)
Variable MEZON_TOKEN : option string.

(** The outcome of [server.connect(transport)]. *)
Variable connect : Exception + unit.

(** The [try] block of [main]. *)
Definition main_try (token : string) : Async unit :=
  perform (ClientLogin token) ;;;
  await (login client token) ;;;
  perform ServerConnect ;;;
  await connect ;;;
  perform (ConsoleError "Mezon MCP Clan running on stdio" None).

(** The [catch] block of [main]. *)
Definition main_catch (error : Exception) : Async unit :=
  perform (ConsoleError "Fatal error in main():" (Some error)) ;;;
  perform (ProcessExit 1).

Definition missing_token : Exception :=
  JsError StartupError "MEZON_TOKEN environment variable is not set".

(** [async function main()] *)
Definition main : Async unit :=
  match MEZON_TOKEN with
  | Some token =>
      if negb (truthy token) then throw missing_token
      else try_catch (main_try token) main_catch
  | None => throw missing_token
  end.

(** Line 249, [main();].  Nothing handles the promise [main] returns, so a
    rejection of it is an unhandled rejection; Node (since version 15, in
    its default mode) raises it as an uncaught exception: the error is
    printed on the standard error stream and the process exits with
    status 1. *)
Definition start : list Effect :=
  match main with
  | (t, inl error) => (t ++ [UncaughtException error; ProcessExit 1])%list
  | (t, inr _) => t
  end.


Definition is_exit (e : Effect) : bool :=
  match e with ProcessExit _ => true | _ => false end.

(** Whether the process is still alive after the effects [t]. *)
Definition alive (t : list Effect) : bool := negb (existsb is_exit t).

End Process.

(** ** The scenarios of the specification *)

Module Scenario.

Definition general : Channel := mkChannel "C1" "general" true "S1" "Acme".
Definition random : Channel := mkChannel "C2" "random" true "S1" "Acme".
Definition acme : Clan := mkClan "S1" "Acme" [general; random].

Definition hello : Message := mkMessage "ann#1" "hello" "2025-01-01T00:00:00.000Z".
Definition again : Message := mkMessage "bob#2" "again" "2025-01-01T00:00:01.000Z".

(** A platform that knows the servers [servers], finds a server or a
    channel by its ID among them and rejects every other fetch, assigns
    the ID [M1] to a sent message and delivers [hello] and [again]. *)
Definition find_clan (servers : list Clan) (ident : string) : Fetched Clan :=
  match find (fun g => String.eqb (clan_id g) ident) servers with
  | Some g => Resolved (Some g)
  | None => Rejected
  end.

Definition find_channel (servers : list Clan) (ident : string) : Fetched Channel :=
  match find (fun c => String.eqb (channel_id c) ident) (flat_map channels_cache servers) with
  | Some c => Resolved (Some c)
  | None => Rejected
  end.

(** A platform that knows the servers [servers], finds a server or a
    channel by its ID among them and rejects every other fetch, assigns
    the ID [M1] to a sent message and delivers [hello] and [again], as far
    as the limit allows. *)
Definition platform (servers : list Clan) : MezonClient :=
  {| clans := servers;
     clans_fetch := find_clan servers;
     channels_fetch := find_channel servers;
     channel_send := fun _ _ => inr "M1";
     messages_fetch :=
       fun _ limit => inr (firstn (Z.to_nat (Qfloor limit)) [hello; again]);
     login := fun _ => inr tt |}.



End Scenario.

(** ** Properties of directories and results *)

(** The entry of the list of an ambiguous server name in the words of the
    specification: [name (ID)], as in its scenario [Test (S1), Test (S2)]. *)
Definition spec_server_entry (g : Clan) : string :=
  clan_name g ++ " (" ++ clan_id g ++ ")".

(** The claim about the ambiguous case as the specification words it: the
    error is [Ambiguous] and its message shows each match as [name (ID)]. *)
Definition ambiguous_as_specified {L : LowerCase}
           (client : MezonClient) (ident : string) : Prop :=
  exists m,
    outcome (findClan client (Some ident)) = inl (JsError Ambiguous m) /\
    forall g, In g (filter (clan_name_matches ident) (clans client)) ->
              includes (spec_server_entry g) m = true.

(** Two resolutions agree when they return the same channel or fail with
    errors of the same kind (the messages repeat the identifier as given). *)
Definition same_resolution (a b : Exception + Channel) : Prop :=
  match a, b with
  | inr c, inr c' => c = c'
  | inl e, inl e' => kind_of e = kind_of e'
  | _, _ => False
  end.

(** The claim about an inserted [#] as it is stated: for every channel and
    every position, the name with a [#] inserted there matches. *)
Definition inserted_hash_always_matches {L : LowerCase} : Prop :=
  forall (c : Channel) (i : nat),
    channel_name_matches (insert_at i hash (channel_name c)) c = true.

(** Whether the name of a server and the names of its channels are made of
    ASCII characters. *)
Definition ascii_guild (g : Clan) : bool :=
  is_ascii (clan_name g)
  && forallb (fun c => is_ascii (channel_name c)) (channels_cache g).

(** Whether a resolution meets ASCII names only: in the directory, in the
    identifiers and in the server the fetch by ID finds. *)
Definition ascii_resolution (client : MezonClient) (ident : string)
           (server : option string) : bool :=
  forallb ascii_guild (clans client)
  && is_ascii ident
  && match server with
     | Some s =>
         is_ascii s
         && match clans_fetch client s with
            | Resolved (Some g) => ascii_guild g
            | _ => true
            end
     | None => true
     end.

(** Whether the [channel] of the arguments, when it is a string, is made of
    ASCII characters. *)
Definition ascii_channel_argument (args : option JsObject) : bool :=
  match args with
  | Some obj =>
      match get "channel" obj with
      | Some (JString s) => is_ascii s
      | _ => true
      end
  | None => true
  end.

(** Lower-casing acts on the parts [u] and [v] of a name apart from each
    other, with a [#] between them and without.  (It does not when the form
    of a final sigma depends on letters of the other part.) *)
Definition lowers_apart {L : LowerCase} (u v : string) : Prop :=
  toLowerCase (u ++ "#" ++ v) = toLowerCase u ++ "#" ++ toLowerCase v /\
  toLowerCase (u ++ v) = toLowerCase u ++ toLowerCase v.

(** A limit as the specification types it: an integer from 1 to 100. *)
Definition integer_limit (q : Q) : Prop :=
  exists n : Z, (1 <= n <= 100)%Z /\ q == inject_Z n.

(** The claim about the number of objects as it is stated: a successful
    call returns at most [limit] of them. *)
Definition at_most_limit {L : LowerCase} (client : MezonClient)
           (args : option JsObject) (limit : Q) : Prop :=
  forall t r formatted,
    handler client "read-messages" args = (t, inr r) ->
    JSON.read (text r) = Some formatted ->
    inject_Z (Z.of_nat (List.length formatted)) <= limit.


(** The objects of the directory agree: the [guild] of a cached channel is
    the server that caches it, and the [guild] of a fetched channel with the
    ID of a known server has the name of that server. *)
Definition consistent (client : MezonClient) : Prop :=
  (forall g c, In g (clans client) -> In c (channels_cache g) ->
               channel_guild_id c = clan_id g /\ channel_guild_name c = clan_name g) /\
  (forall ident c g, channels_fetch client ident = Resolved (Some c) ->
                     In g (clans client) -> channel_guild_id c = clan_id g ->
                     channel_guild_name c = clan_name g).


(** ** More directories *)

Module TwoTests.

Definition S1 : Clan := mkClan "S1" "Test" [].
Definition S2 : Clan := mkClan "S2" "Test" [].
Definition client : MezonClient := Scenario.platform [S1; S2].

End TwoTests.

Module WrongTypeCase.

(** The server [Acme] has a text channel named [777]; [777] is also the ID
    of a voice channel of the server, which the fetch by ID finds. *)
Definition text777 : Channel := mkChannel "C1" "777" true "S1" "Acme".
Definition voice : Channel := mkChannel "777" "lounge" false "S1" "Acme".
Definition acme : Clan := mkClan "S1" "Acme" [text777; voice].
Definition client : MezonClient := Scenario.platform [acme].

End WrongTypeCase.

Module HashNames.

(** A server with a text channel named [general] and one named
    [#general]. *)
Definition general : Channel := mkChannel "C1" "general" true "S1" "Acme".
Definition hash_general : Channel := mkChannel "C2" "#general" true "S1" "Acme".
Definition acme : Clan := mkClan "S1" "Acme" [general; hash_general].
Definition client : MezonClient := Scenario.platform [acme].

(** A text channel whose name has a [#] inside. *)
Definition a_hash_b : Channel := mkChannel "C3" "a#b" true "S1" "Acme".

End HashNames.

Module TwoServers.

Definition acme_general : Channel := mkChannel "C1" "general" true "S1" "Acme".
Definition beta_general : Channel := mkChannel "C3" "general" true "S2" "Beta".
Definition acme : Clan := mkClan "S1" "Acme" [acme_general].
Definition beta : Clan := mkClan "S2" "Beta" [beta_general].

(** The bot is in both servers. *)
Definition both : MezonClient := Scenario.platform [acme; beta].

(** The bot is in [Acme] only. *)
Definition only_acme : MezonClient := Scenario.platform [acme].

Definition to_general (server : string) : option JsObject :=
  Some [("server", JString server); ("channel", JString "general");
        ("message", JString "hi")].

End TwoServers.

Module Generous.

(** A platform that delivers both messages whatever the limit. *)
Definition client : MezonClient :=
  {| clans := [Scenario.acme];
     clans_fetch := Scenario.find_clan [Scenario.acme];
     channels_fetch := Scenario.find_channel [Scenario.acme];
     channel_send := fun _ _ => inr "M1";
     messages_fetch := fun _ _ => inr [Scenario.hello; Scenario.again];
     login := fun _ => inr tt |}.

Definition one_from_random : option JsObject :=
  Some [("channel", JString "random"); ("limit", JNumber 1)].

End Generous.

Module Limits.

Definition random_with (limit : Q) : option JsObject :=
  Some [("channel", JString "random"); ("limit", JNumber limit)].

Definition random_default : option JsObject :=
  Some [("channel", JString "random")].

Definition client : MezonClient := Scenario.platform [Scenario.acme].

End Limits.

(** ** The advertised tools *)

(** One entry of [inputSchema.properties]. *)
Record ToolProperty : Type := mkProperty {
  prop_name : string;
  prop_type : string;
  prop_description : string;
  prop_default : option Json
}.

(** One entry of [tools]; the [type] of every [inputSchema] is [object]. *)
Record Tool : Type := mkTool {
  tool_name : string;
  tool_description : string;
  tool_properties : list ToolProperty;
  tool_required : list string
}.

Definition server_description : string :=
  "Clan name or ID (optional if bot is only in one server)".

Definition channel_description : string :=
  "Channel name (e.g., " ++ dquote ++ "general" ++ dquote ++ ") or ID".

(** [server.setRequestHandler(ListToolsRequestSchema, async () => ...)]:
    the list [tools] of the answer. *)
Definition list_tools : list Tool :=
  [ mkTool "send-message" "Send a message to a Mezon channel"
      [ mkProperty "server" "string" server_description None;
        mkProperty "channel" "string" channel_description None;
        mkProperty "message" "string" "Message content to send" None ]
      ["channel"; "message"];
    mkTool "read-messages" "Read recent messages from a Mezon channel"
      [ mkProperty "server" "string" server_description None;
        mkProperty "channel" "string" channel_description None;
        mkProperty "limit" "number" "Number of messages to fetch (max 100)"
          (Some (JNumber (inject_Z 50))) ]
      ["channel"] ].

(** Whether the object [obj] has the key [key]. *)
Definition has_key (obj : JsObject) (key : string) : bool :=
  match get key obj with Some _ => true | None => false end.

(** Whether the value of the property [p] in [obj], when there is one, has
    the type the schema gives to [p]. *)
Definition well_typed (obj : JsObject) (p : ToolProperty) : bool :=
  match get (prop_name p) obj with
  | Some v => String.eqb (Zod.parsedType v) (prop_type p)
  | None => true
  end.

(** Whether [obj] is an instance of the advertised [inputSchema] of
    [tool]: every required key is there and every property that is there
    has its type. *)
Definition conforms (tool : Tool) (obj : JsObject) : bool :=
  forallb (has_key obj) (tool_required tool)
  && forallb (well_typed obj) (tool_properties tool).

(** Whether the handler's [parse] of the arguments of the tool [name]
    succeeds. *)
Definition validates (name : string) (args : option JsObject) : bool :=
  if String.eqb name "send-message" then
    match SendMessageSchema_parse args with inr _ => true | inl _ => false end
  else if String.eqb name "read-messages" then
    match ReadMessagesSchema_parse args with inr _ => true | inl _ => false end
  else false.

(** The calls that look a server or a channel up. *)
Definition is_lookup (e : Effect) : bool :=
  match e with
  | ClansFetch _ | ChannelsFetch _ => true
  | _ => false
  end.

(** Two server resolutions agree when they return the same server or fail
    with errors of the same kind. *)
Definition same_server (a b : Exception + Clan) : Prop :=
  match a, b with
  | inr g, inr g' => g = g'
  | inl e, inl e' => kind_of e = kind_of e'
  | _, _ => False
  end.

(** The confirmation of [send-message]. *)
Definition confirmation (channel : Channel) (sent_id : string) : string :=
  "Message sent successfully to #" ++ channel_name channel
  ++ " in " ++ channel_guild_name channel ++ ". Message ID: " ++ sent_id.

(** What the [catch] block makes of a thrown value. *)
Definition reported (e : Exception) : Exception :=
  match e with
  | ZodError errors =>
      JsError ValidationError ("Invalid arguments: " ++ join ", " (map show_issue errors))
  | _ => e
  end.

(** ** Facts about strings *)

Section StringFacts.

Lemma startsWith_app (p s : string) : startsWith p (p ++ s) = true.
Proof.
  induction p as [|a p IH]; simpl; [reflexivity|].
  now rewrite Ascii.eqb_refl, IH.
Qed.

Lemma includes_here (sub s : string) : includes sub (sub ++ s) = true.
Proof.
  destruct (sub ++ s) eqn:E; simpl; rewrite <- E, startsWith_app; reflexivity.
Qed.

Lemma append_empty (s : string) : s ++ EmptyString = s.
Proof. induction s; simpl; congruence. Qed.

Lemma includes_refl (s : string) : includes s s = true.
Proof. rewrite <- (append_empty s) at 2. apply includes_here. Qed.

Lemma includes_app_r (sub s t : string) :
  includes sub t = true -> includes sub (s ++ t) = true.
Proof.
  intros H. induction s as [|a s IH]; simpl; [exact H|].
  rewrite IH. apply orb_true_r.
Qed.

Lemma includes_app_l (sub s t : string) :
  includes sub s = true -> includes sub (s ++ t) = true.
Proof.
  revert sub. induction s as [|a s IH]; intros sub H.
  - destruct sub; simpl in H; [|discriminate].
    destruct t; reflexivity.
  - simpl in H. apply orb_true_iff in H. destruct H as [H|H].
    + assert (P : startsWith sub (String a s ++ t) = true).
      { clear IH. revert H. generalize (String a s). intros u. revert sub.
        induction u as [|b u IHu]; intros [|c sub] H; simpl in *;
          try reflexivity; try discriminate.
        apply andb_true_iff in H. destruct H as [H1 H2].
        now rewrite H1, IHu. }
      simpl in *. now rewrite P.
    + simpl. rewrite (IH _ H). apply orb_true_r.
Qed.

Lemma includes_join (sep x : string) (xs : list string) :
  In x xs -> includes x (join sep xs) = true.
Proof.
  induction xs as [|y ys IH]; intros H; [destruct H|].
  destruct ys as [|z zs].
  - destruct H as [<-|[]]. apply includes_refl.
  - change (join sep (y :: z :: zs)) with (y ++ sep ++ join sep (z :: zs)).
    destruct H as [<-|H].
    + apply includes_here.
    + apply includes_app_r, includes_app_r, IH, H.
Qed.

Lemma lower_hash (a : ascii) :
  Ascii.eqb (lower_ascii a) hash = Ascii.eqb a hash.
Proof.
  destruct a as [[] [] [] [] [] [] [] []]; reflexivity.
Qed.

(** [s.replace('#', '')], one character at a time. *)
Lemma replace_hash_cons (a : ascii) (s : string) :
  replace "#" EmptyString (String a s)
  = if Ascii.eqb a hash then s else String a (replace "#" EmptyString s).
Proof.
  change (replace "#" EmptyString (String a s))
    with (if Ascii.eqb hash a && true then s
          else String a (replace "#" EmptyString s)).
  now rewrite andb_true_r, Ascii.eqb_sym.
Qed.

Lemma includes_hash_cons (a : ascii) (s : string) :
  includes "#" (String a s) = Ascii.eqb a hash || includes "#" s.
Proof.
  change (includes "#" (String a s))
    with ((Ascii.eqb hash a && true) || includes "#" s).
  now rewrite andb_true_r, Ascii.eqb_sym.
Qed.

(** Removing the first [#] joins the parts around it when the part before
    it has none. *)
Lemma replace_hash_between (u v : string) :
  includes "#" u = false ->
  replace "#" EmptyString (u ++ "#" ++ v) = u ++ v.
Proof.
  induction u as [|a u IH]; intros H; [reflexivity|].
  rewrite includes_hash_cons in H. apply orb_false_iff in H.
  destruct H as [Ha Hu].
  change (String a u ++ "#" ++ v) with (String a (u ++ "#" ++ v)).
  now rewrite replace_hash_cons, Ha, (IH Hu).
Qed.

Lemma ascii_toLowerCase_app (u v : string) :
  ascii_toLowerCase (u ++ v) = ascii_toLowerCase u ++ ascii_toLowerCase v.
Proof. induction u as [|a u IH]; simpl; [reflexivity|now rewrite IH]. Qed.

Lemma is_ascii_app (u v : string) :
  is_ascii (u ++ v) = is_ascii u && is_ascii v.
Proof.
  induction u as [|a u IH]; [reflexivity|].
  change (is_ascii (String a u ++ v))
    with ((nat_of_ascii a <? 128)%nat && is_ascii (u ++ v)).
  change (is_ascii (String a u))
    with ((nat_of_ascii a <? 128)%nat && is_ascii u).
  now rewrite IH, andb_assoc.
Qed.

(** A string without [#] is left alone. *)
Lemma replace_no_hash (s : string) :
  includes "#" s = false -> replace "#" EmptyString s = s.
Proof.
  induction s as [|a s IH]; intros H; [reflexivity|].
  rewrite includes_hash_cons in H. apply orb_false_iff in H.
  destruct H as [Ha Hs].
  now rewrite replace_hash_cons, Ha, (IH Hs).
Qed.

Lemma includes_hash_lower (s : string) :
  includes "#" (ascii_toLowerCase s) = includes "#" s.
Proof.
  induction s as [|a s IH]; [reflexivity|].
  change (ascii_toLowerCase (String a s))
    with (String (lower_ascii a) (ascii_toLowerCase s)).
  now rewrite !includes_hash_cons, lower_hash, IH.
Qed.

End StringFacts.

(** The ASCII member of the class: it lower-cases the letters [A]-[Z] and
    leaves every other byte alone. *)
#[export] Instance ascii_LowerCase : LowerCase := {|
  toLowerCase := ascii_toLowerCase;
  toLowerCase_ascii := fun s _ => eq_refl;
  toLowerCase_hash_prefix := fun s => eq_refl;
  toLowerCase_includes_hash := includes_hash_lower
|}.

(** ** Worked examples *)

Example send_to_general :
  handler (Scenario.platform [Scenario.acme]) "send-message"
    (Some [("channel", JString "general"); ("message", JString "hi")])
  = ([ChannelsFetch "general"; ChannelSend "C1" "hi"],
     inr (mkToolResult "Message sent successfully to #general in Acme. Message ID: M1")).
Proof. reflexivity. Qed.

Example test_servers_ambiguous :
  outcome (findClan (Scenario.platform [mkClan "S1" "Test" []; mkClan "S2" "Test" []])
             (Some "test"))
  = inl (JsError Ambiguous
           ("Multiple servers found with name " ++ dquote ++ "test" ++ dquote
            ++ ": Test (ID: S1), Test (ID: S2). Please specify the server ID.")).
Proof. reflexivity. Qed.

Example replace_first_only : replace "#" EmptyString "gen#er#al" = "gener#al".
Proof. reflexivity. Qed.


Section IncludesFacts.

Lemma startsWith_inv (p s : string) :
  startsWith p s = true -> exists rest, s = p ++ rest.
Proof.
  revert s. induction p as [|a p IH]; intros s H.
  - now exists s.
  - destruct s as [|b s]; [discriminate|].
    simpl in H. apply andb_true_iff in H. destruct H as [Hab Hps].
    apply Ascii.eqb_eq in Hab. subst b.
    destruct (IH _ Hps) as [rest ->]. now exists rest.
Qed.

Lemma includes_inv (sub s : string) :
  includes sub s = true -> exists pre post, s = pre ++ sub ++ post.
Proof.
  induction s as [|a s IH]; intros H.
  - simpl in H. rewrite orb_false_r in H.
    destruct (startsWith_inv _ _ H) as [rest E].
    now exists EmptyString, rest.
  - simpl in H. apply orb_true_iff in H. destruct H as [H|H].
    + destruct (startsWith_inv _ _ H) as [rest E].
      now exists EmptyString, rest.
    + destruct (IH H) as (pre & post & ->).
      now exists (String a pre), post.
Qed.

Lemma includes_intro (sub pre post : string) :
  includes sub (pre ++ sub ++ post) = true.
Proof. apply includes_app_r, includes_here. Qed.

Lemma append_assoc (a b c : string) : (a ++ b) ++ c = a ++ b ++ c.
Proof. induction a; simpl; congruence. Qed.

Lemma includes_trans (a b c : string) :
  includes a b = true -> includes b c = true -> includes a c = true.
Proof.
  intros Hab Hbc.
  destruct (includes_inv _ _ Hab) as (p1 & q1 & ->).
  destruct (includes_inv _ _ Hbc) as (p2 & q2 & ->).
  rewrite !append_assoc, <- (append_assoc p2 p1).
  apply includes_intro.
Qed.

(** A message that ends with a joined list shows every item of the list. *)
Lemma includes_listed (x head tail : string) (xs : list string) :
  In x xs -> includes x (head ++ join ", " xs ++ tail) = true.
Proof.
  intros H. apply includes_app_r, includes_app_l, includes_join, H.
Qed.

End IncludesFacts.

(** ** The server resolver *)

Section ServerResolver.

Context {L : LowerCase}.

Variable client : MezonClient.

Lemma quoted_name_shows (g : Clan) : includes (clan_name g) (quoted_name g) = true.
Proof. apply includes_intro. Qed.

Lemma clan_with_id_shows_id (g : Clan) : includes (clan_id g) (clan_with_id g) = true.
Proof.
  unfold clan_with_id. apply includes_app_r, includes_app_r, includes_here.
Qed.

Lemma clan_with_id_shows_name (g : Clan) : includes (clan_name g) (clan_with_id g) = true.
Proof. apply includes_here. Qed.

(** The servers the name fallback selects are those of the directory whose
    name equals the identifier up to case. *)
Lemma name_matches_iff (ident : string) (g : Clan) :
  In g (filter (clan_name_matches ident) (clans client))
  <-> In g (clans client) /\ toLowerCase (clan_name g) = toLowerCase ident.
Proof.
  rewrite filter_In. unfold clan_name_matches. now rewrite String.eqb_eq.
Qed.

Lemma available_servers_shows (g : Clan) :
  In g (clans client) ->
  includes (clan_name g) (available_servers client) = true.
Proof.
  intros H. apply includes_trans with (quoted_name g); [apply quoted_name_shows|].
  apply includes_join, in_map, H.
Qed.

(** A fetch that resolves to nothing ends the resolution: the name fallback
    is the [catch] block and runs on a rejection only. *)
Lemma findClan_fetch_nothing (ident : string) :
  truthy ident = true ->
  clans_fetch client ident = Resolved None ->
  findClan client (Some ident)
  = ([ClansFetch ident],
     inl (JsError NotFound ("Clan " ++ dquote ++ ident ++ dquote ++ " not found"))).
Proof. intros Hid Hfetch. unfold findClan. now rewrite Hid, Hfetch. Qed.

End ServerResolver.

(** Finds a part known to be shown by a piece of a message built with [++]. *)
Ltac shown_in_message :=
  solve [ eassumption
        | apply includes_app_l; eassumption
        | apply includes_app_r; shown_in_message ].

(** [C2] Without an identifier, a directory of exactly one server resolves
    to that server, and a directory of more than one server fails with
    [MultiServerNoDefault]; the message of the error ends with the joined
    list of the quoted names of all known servers, so every known name
    appears in it.  No call to the platform is made. *)
Theorem findClan_no_identifier {L : LowerCase} (client : MezonClient) :
  (forall g, clans client = [g] -> findClan client None = ([], inr g)) /\
  ((1 < List.length (clans client))%nat ->
   exists m,
     findClan client None = ([], inl (JsError MultiServerNoDefault m)) /\
     m = "Bot is in multiple servers. Please specify server name or ID. Available servers: "
         ++ join ", " (map quoted_name (clans client)) /\
     forall g, In g (clans client) -> includes (clan_name g) m = true).
Proof.
  split.
  - intros g E. unfold findClan, findClan_default. now rewrite E.
  - intros Hlen. eexists. split; [|split; [reflexivity|]].
    + unfold findClan, findClan_default.
      destruct (clans client) as [|g1 [|g2 rest]] eqn:E; simpl in Hlen; try lia.
      unfold throw, available_servers. now rewrite E.
    + intros g Hg. pose proof (available_servers_shows client g Hg) as Hshown.
      unfold available_servers in Hshown. shown_in_message.
Qed.

Lemma findClan_no_identifier_witness :
  findClan (Scenario.platform [Scenario.acme]) None = ([], inr Scenario.acme) /\
  exists m,
    findClan (Scenario.platform [Scenario.acme; mkClan "S2" "Beta" []]) None
    = ([], inl (JsError MultiServerNoDefault m)) /\
    includes "Beta" m = true.
Proof.
  split.
  - apply (proj1 (findClan_no_identifier (Scenario.platform [Scenario.acme]))).
    reflexivity.
  - destruct (proj2 (findClan_no_identifier
                       (Scenario.platform [Scenario.acme; mkClan "S2" "Beta" []])))
      as (m & E & _ & Hall).
    + simpl. lia.
    + exists m. split; [exact E|].
      apply (Hall (mkClan "S2" "Beta" [])). simpl. auto.
Defined.

(** [C3] When the fetch by ID of an identifier hits, [findClan] returns the
    fetched server after that one call, whatever the names in the directory:
    for a server [S] whose ID the platform resolves to [S],
    [findClan(S.id)] is [S].  (An identifier is supplied when it is not the
    empty string.) *)
Theorem findClan_id_hit {L : LowerCase} (client : MezonClient) (S : Clan) :
  truthy (clan_id S) = true ->
  clans_fetch client (clan_id S) = Resolved (Some S) ->
  findClan client (Some (clan_id S)) = ([ClansFetch (clan_id S)], inr S).
Proof.
  intros Hid Hfetch. unfold findClan. now rewrite Hid, Hfetch.
Qed.

Lemma findClan_id_hit_witness :
  let S1 := mkClan "S1" "Test" [] in
  let S2 := mkClan "S2" "Test" [] in
  findClan (Scenario.platform [S1; S2]) (Some "S2") = ([ClansFetch "S2"], inr S2).
Proof.
  intros S1 S2.
  apply (findClan_id_hit (Scenario.platform [S1; S2]) S2); reflexivity.
Defined.

(** [C4], the claim as stated fails: with two servers named [Test], of IDs
    [S1] and [S2], the name [Test] is ambiguous and the message lists
    [Test (ID: S1), Test (ID: S2)]; the entry [Test (S1)] is not in it. *)
Lemma findClan_ambiguous_entry_counterexample :
  clans_fetch TwoTests.client "Test" = Rejected /\
  ~ ambiguous_as_specified TwoTests.client "Test".
Proof.
  split; [reflexivity|].
  intros (m & E & H).
  vm_compute in E. injection E as <-.
  specialize (H TwoTests.S1 (or_introl eq_refl)).
  vm_compute in H. discriminate.
Qed.

(** [C4], amended.  When an identifier is supplied and its fetch by ID
    rejects, [findClan] matches the identifier against the names of all
    known servers, exactly and up to case.  No match: [NotFound], and the
    message lists the quoted names of all known servers.  One match: that
    server.  More matches: [Ambiguous], and the message lists each match as
    [name (ID: id)]. *)
Theorem findClan_name_fallback {L : LowerCase} (client : MezonClient) (ident : string) :
  truthy ident = true ->
  clans_fetch client ident = Rejected ->
  let matches := filter (clan_name_matches ident) (clans client) in
  (forall g, In g matches <->
             In g (clans client) /\ toLowerCase (clan_name g) = toLowerCase ident) /\
  trace (findClan client (Some ident)) = [ClansFetch ident] /\
  match matches with
  | [] =>
      exists m,
        outcome (findClan client (Some ident)) = inl (JsError NotFound m) /\
        m = "Clan " ++ dquote ++ ident ++ dquote ++ " not found. Available servers: "
            ++ join ", " (map quoted_name (clans client)) /\
        forall g, In g (clans client) -> includes (clan_name g) m = true
  | [g] => outcome (findClan client (Some ident)) = inr g
  | _ :: _ :: _ =>
      exists m,
        outcome (findClan client (Some ident)) = inl (JsError Ambiguous m) /\
        m = "Multiple servers found with name " ++ dquote ++ ident ++ dquote ++ ": "
            ++ join ", " (map clan_with_id matches)
            ++ ". Please specify the server ID." /\
        forall g, In g matches ->
                  includes (clan_name g ++ " (ID: " ++ clan_id g ++ ")") m = true
  end.
Proof.
  intros Hid Hfetch matches.
  split; [intros g; apply name_matches_iff|].
  unfold findClan. rewrite Hid, Hfetch. unfold findClan_by_name.
  fold matches. simpl negb. cbv iota.
  destruct matches as [|g1 [|g2 rest]] eqn:E.
  - split; [reflexivity|]. eexists. split; [reflexivity|]. split; [reflexivity|].
    intros g Hg. pose proof (available_servers_shows client g Hg) as Hshown.
    unfold available_servers in Hshown. shown_in_message.
  - split; reflexivity.
  - split; [reflexivity|]. eexists. split; [reflexivity|]. split; [reflexivity|].
    intros g Hg.
    pose proof (includes_join ", " _ _ (in_map clan_with_id _ _ Hg)) as Hshown.
    unfold clan_with_id in Hshown at 1. shown_in_message.
Qed.

Lemma findClan_name_fallback_witness :
  exists m,
    outcome (findClan TwoTests.client (Some "test")) = inl (JsError Ambiguous m) /\
    includes "Test (ID: S1)" m = true /\ includes "Test (ID: S2)" m = true.
Proof.
  destruct (findClan_name_fallback TwoTests.client "test" eq_refl eq_refl)
    as (_ & _ & H).
  cbv zeta in H.
  change (filter (clan_name_matches "test") (clans TwoTests.client))
    with [TwoTests.S1; TwoTests.S2] in H.
  cbv iota in H. destruct H as (m & E & _ & Hall).
  exists m. split; [exact E|]. split.
  - apply (Hall TwoTests.S1). simpl. auto.
  - apply (Hall TwoTests.S2). simpl. auto.
Defined.

(** ** The channel resolver *)

Section ChannelResolver.

Context {L : LowerCase}.

Variable client : MezonClient.

(** [findChannel] once the server is resolved. *)
Lemma findChannel_after_findClan (ident : string) (server : option string)
      (t : list Effect) (guild : Clan) :
  findClan client server = (t, inr guild) ->
  findChannel client ident server
  = ((t ++ [ChannelsFetch ident])%list,
     match channels_fetch client ident with
     | Resolved fetched =>
         match accepted_by_id guild fetched with
         | Some channel => inr channel
         | None => inl (not_a_text_channel guild ident)
         end
     | Rejected => outcome (findChannel_by_name guild ident)
     end).
Proof.
  intros E. unfold findChannel. rewrite E. unfold bind, perform.
  destruct (channels_fetch client ident) as [fetched|].
  - destruct (accepted_by_id guild fetched); reflexivity.
  - unfold findChannel_by_name.
    destruct (filter _ _) as [|c1 [|c2 rest]]; reflexivity.
Qed.

Lemma findChannel_findClan_fails (ident : string) (server : option string)
      (t : list Effect) (e : Exception) :
  findClan client server = (t, inl e) ->
  findChannel client ident server = (t, inl e).
Proof. intros E. unfold findChannel. now rewrite E. Qed.

(** The name search returns a channel only out of the cache of the server
    it searches, and only a text channel. *)
Lemma findChannel_by_name_returns (guild : Clan) (ident : string) (c : Channel) :
  outcome (findChannel_by_name guild ident) = inr c ->
  In c (channels_cache guild) /\ channel_name_matches ident c = true.
Proof.
  unfold findChannel_by_name.
  destruct (filter _ _) as [|c1 [|c2 rest]] eqn:E; simpl; try discriminate.
  intros [= <-]. apply filter_In. rewrite E. simpl. auto.
Qed.

End ChannelResolver.

(** [C5], the claim as stated fails: the fetch by ID of [777] succeeds with a
    channel that is not text-capable; the name search of the resolved server
    would find the text channel named [777], but [findChannel] does not run
    it and fails with [WrongType]. *)
Lemma findChannel_no_fall_through_counterexample :
  channels_fetch WrongTypeCase.client "777" = Resolved (Some WrongTypeCase.voice) /\
  outcome (findChannel_by_name WrongTypeCase.acme "777") = inr WrongTypeCase.text777 /\
  outcome (findChannel WrongTypeCase.client "777" None)
  <> outcome (findChannel_by_name WrongTypeCase.acme "777").
Proof.
  split; [reflexivity|]. split; [reflexivity|]. vm_compute. discriminate.
Qed.

(** [C5], amended.  When the fetch by ID of the channel resolves (does not
    reject) and the fetched object is missing, not text-capable or of a
    server other than the resolved one, [findChannel] fails at once with
    [WrongType], whatever the channels of the resolved server; the name
    search runs only when the fetch rejects. *)
Theorem findChannel_id_hit_refused {L : LowerCase}
        (client : MezonClient) (ident : string) (server : option string)
        (t : list Effect) (guild : Clan) (fetched : option Channel) :
  findClan client server = (t, inr guild) ->
  channels_fetch client ident = Resolved fetched ->
  (forall c, fetched = Some c ->
             isTextChannel c = false \/ channel_guild_id c <> clan_id guild) ->
  findChannel client ident server
  = ((t ++ [ChannelsFetch ident])%list,
     inl (JsError WrongType
            ("Channel " ++ dquote ++ ident ++ dquote
             ++ " is not a text channel or not found in server "
             ++ dquote ++ clan_name guild ++ dquote))).
Proof.
  intros Hclan Hfetch Hbad.
  rewrite (findChannel_after_findClan _ _ _ _ _ Hclan), Hfetch.
  assert (accepted_by_id guild fetched = None) as ->; [|reflexivity].
  destruct fetched as [c|]; [|reflexivity]. simpl.
  destruct (Hbad c eq_refl) as [Htext|Hguild].
  - now rewrite Htext.
  - apply String.eqb_neq in Hguild. now rewrite Hguild, andb_false_r.
Qed.

Lemma findChannel_id_hit_refused_witness :
  exists m,
    findChannel WrongTypeCase.client "777" None
    = ([ChannelsFetch "777"], inl (JsError WrongType m)).
Proof.
  eexists.
  apply (findChannel_id_hit_refused WrongTypeCase.client "777" None []
           WrongTypeCase.acme (Some WrongTypeCase.voice)).
  - reflexivity.
  - reflexivity.
  - intros c [= <-]. left. reflexivity.
Defined.

(** [C6], the claim as stated fails: in a server with the text channels
    [general] and [#general], the query [general] resolves to the first,
    and the query [#general] matches both (the second as it is, the first
    with the [#] removed) and fails with [Ambiguous]. *)
Lemma findChannel_hash_prefix_counterexample :
  outcome (findChannel HashNames.client "general" None) = inr HashNames.general /\
  (exists m, outcome (findChannel HashNames.client "#general" None)
             = inl (JsError Ambiguous m)) /\
  ~ same_resolution (outcome (findChannel HashNames.client "#general" None))
                    (outcome (findChannel HashNames.client "general" None)).
Proof.
  split; [reflexivity|]. split; [eexists; reflexivity|].
  vm_compute. exact (fun H => H).
Qed.

Section HashPrefix.

Context {L : LowerCase}.

Variable n : string.
Hypothesis no_hash : includes "#" n = false.

(** For a query without [#], the filter callback with the prefixed query
    accepts what it accepts with the bare query, and the channels named
    [#n] besides. *)
Lemma channel_name_matches_prefixed (c : Channel) :
  channel_name_matches ("#" ++ n) c
  = channel_name_matches n c
    || (isTextChannel c
        && String.eqb (toLowerCase (channel_name c)) ("#" ++ toLowerCase n)).
Proof.
  unfold channel_name_matches.
  change ("#" ++ n) with (String hash n). rewrite toLowerCase_hash_prefix.
  rewrite replace_hash_cons, Ascii.eqb_refl.
  rewrite (replace_no_hash (toLowerCase n))
    by (now rewrite toLowerCase_includes_hash).
  change ("#" ++ toLowerCase n) with (String hash (toLowerCase n)).
  set (l := toLowerCase (channel_name c)).
  destruct (isTextChannel c), (String.eqb l (String hash (toLowerCase n))),
           (String.eqb l (toLowerCase n)); reflexivity.
Qed.

End HashPrefix.

(** [C6], amended.  Within a server, for a query [n] without [#]: when the
    fetches by ID of [n] and of [#n] both reject and the server has no text
    channel whose own name is [#n] up to case, the queries [#n] and [n]
    select the same channels, so they return the same channel or fail with
    the same kind of error. *)
Theorem findChannel_hash_prefix {L : LowerCase}
        (client : MezonClient) (server : option string)
        (t : list Effect) (guild : Clan) (n : string) :
  findClan client server = (t, inr guild) ->
  channels_fetch client n = Rejected ->
  channels_fetch client ("#" ++ n) = Rejected ->
  includes "#" n = false ->
  (forall c, In c (channels_cache guild) -> isTextChannel c = true ->
             toLowerCase (channel_name c) <> "#" ++ toLowerCase n) ->
  filter (channel_name_matches ("#" ++ n)) (channels_cache guild)
  = filter (channel_name_matches n) (channels_cache guild) /\
  same_resolution (outcome (findChannel client ("#" ++ n) server))
                  (outcome (findChannel client n server)).
Proof.
  intros Hclan Hn Hhn Hno Hnames.
  assert (Hfilter : filter (channel_name_matches ("#" ++ n)) (channels_cache guild)
                    = filter (channel_name_matches n) (channels_cache guild)).
  { apply filter_ext_in. intros c Hc.
    rewrite (channel_name_matches_prefixed n Hno).
    destruct (isTextChannel c) eqn:Htext; [|now rewrite orb_false_r].
    destruct (String.eqb_spec (toLowerCase (channel_name c)) ("#" ++ toLowerCase n))
      as [E|_]; [|now rewrite orb_false_r].
    now destruct (Hnames c Hc Htext). }
  split; [exact Hfilter|].
  rewrite !(findChannel_after_findClan _ _ _ _ _ Hclan), Hn, Hhn.
  unfold outcome at 1 3. cbn [snd].
  unfold findChannel_by_name. rewrite Hfilter.
  destruct (filter (channel_name_matches n) (channels_cache guild))
    as [|c1 [|c2 rest]]; exact eq_refl.
Qed.

Lemma findChannel_hash_prefix_witness :
  same_resolution
    (outcome (findChannel (Scenario.platform [Scenario.acme]) "#general" None))
    (outcome (findChannel (Scenario.platform [Scenario.acme]) "general" None)) /\
  outcome (findChannel (Scenario.platform [Scenario.acme]) "#general" None)
  = inr Scenario.general.
Proof.
  split; [|reflexivity].
  apply (findChannel_hash_prefix (Scenario.platform [Scenario.acme]) None []
           Scenario.acme "general"); try reflexivity.
  intros c [<-|[<-|[]]] _; discriminate.
Defined.

(** [C10], the claim as stated fails: for the text channel named [a#b], the
    identifier [a#b#] loses its first [#], which gives [ab#], and matches
    neither as it is nor so. *)
Lemma inserted_hash_counterexample :
  insert_at 3 hash (channel_name HashNames.a_hash_b) = "a#b#" /\
  replace "#" EmptyString "a#b#" = "ab#" /\
  channel_name_matches "a#b#" HashNames.a_hash_b = false /\
  ~ inserted_hash_always_matches.
Proof.
  repeat split; try reflexivity.
  intros H. specialize (H HashNames.a_hash_b 3%nat). vm_compute in H. discriminate.
Qed.

(** Names of ASCII characters are lower-cased part by part. *)
Lemma ascii_lowers_apart {L : LowerCase} (u v : string) :
  is_ascii (u ++ v) = true -> lowers_apart u v.
Proof.
  intros H. pose proof H as Huv.
  rewrite is_ascii_app in H. apply andb_true_iff in H. destruct H as [Hu Hv].
  assert (Hmid : is_ascii (u ++ "#" ++ v) = true).
  { rewrite is_ascii_app, Hu. change (is_ascii ("#" ++ v)) with (is_ascii v).
    now rewrite Hv. }
  split.
  - rewrite (toLowerCase_ascii _ Hmid), (toLowerCase_ascii _ Hu),
      (toLowerCase_ascii _ Hv).
    now rewrite ascii_toLowerCase_app.
  - rewrite (toLowerCase_ascii _ Huv), (toLowerCase_ascii _ Hu),
      (toLowerCase_ascii _ Hv).
    apply ascii_toLowerCase_app.
Qed.

(** [C10], amended.  The comparison of the name fallback removes the first
    [#] of the identifier wherever it stands.  For every text-capable
    channel, an identifier equal up to case to the name of the channel with
    one [#] inserted between two parts [u] and [v] of the name, of which the
    first has no [#], matches the channel, provided that lower-casing acts
    on the two parts apart from each other, as it always does for a name of
    ASCII characters; the channel is then among those the name search
    selects in its server. *)
Theorem inserted_hash_matches {L : LowerCase} (c : Channel) (u v ident : string) :
  isTextChannel c = true ->
  channel_name c = u ++ v ->
  includes "#" u = false ->
  toLowerCase ident = toLowerCase (u ++ "#" ++ v) ->
  is_ascii (channel_name c) = true \/ lowers_apart u v ->
  replace "#" EmptyString (toLowerCase ident) = toLowerCase (channel_name c) /\
  channel_name_matches ident c = true /\
  forall guild, In c (channels_cache guild) ->
                In c (filter (channel_name_matches ident) (channels_cache guild)).
Proof.
  intros Htext Hname Hbefore Hident Hcase.
  assert (Hapart : lowers_apart u v).
  { destruct Hcase as [Hascii|H]; [|exact H].
    apply ascii_lowers_apart. now rewrite <- Hname. }
  destruct Hapart as [Hmid Hjoin].
  assert (Hstrip : replace "#" EmptyString (toLowerCase ident)
                   = toLowerCase (channel_name c)).
  { rewrite Hident, Hmid, Hname, Hjoin.
    apply replace_hash_between. now rewrite toLowerCase_includes_hash. }
  assert (Hmatch : channel_name_matches ident c = true).
  { unfold channel_name_matches.
    now rewrite Htext, Hstrip, String.eqb_refl, orb_true_r. }
  split; [exact Hstrip|]. split; [exact Hmatch|].
  intros guild Hin. apply filter_In. now split.
Qed.

Lemma inserted_hash_matches_witness :
  channel_name_matches "Gen#eral" Scenario.general = true.
Proof.
  apply (inserted_hash_matches Scenario.general "gen" "eral" "Gen#eral");
    try reflexivity.
  left. reflexivity.
Defined.

(** ** The tool handler *)

Section HandlerFacts.

Context {L : LowerCase}.

Variable client : MezonClient.


Lemma on_error_throws (e : Exception) : exists e', on_error e = ([], inl e').
Proof. destruct e; eexists; reflexivity. Qed.

(** The handler returns a result only when the body of its [try] does. *)
Lemma try_on_error_returns (m : Async ToolResult) (t : list Effect) (r : ToolResult) :
  try_catch m on_error = (t, inr r) -> m = (t, inr r).
Proof.
  destruct m as [t1 [e|a]]; simpl; [|congruence].
  destruct (on_error_throws e) as [e' ->]. discriminate.
Qed.

(** The parsed [channel] and [message] do not depend on the [server]
    entry. *)
Lemma send_message_ignores_server (s : string) (obj : JsObject) :
  get "server" obj = None ->
  send_message client (Some (("server", JString s) :: obj))
  = send_message client (Some obj).
Proof.
  intros Hnone. unfold send_message, SendMessageSchema_parse, Zod.field.
  change (get "server" (("server", JString s) :: obj)) with (Some (JString s)).
  change (get "channel" (("server", JString s) :: obj)) with (get "channel" obj).
  change (get "message" (("server", JString s) :: obj)) with (get "message" obj).
  rewrite Hnone. simpl Zod.optional.
  destruct (Zod.string_ ["channel"] (get "channel" obj)) as [ic|c];
    destruct (Zod.string_ ["message"] (get "message" obj)) as [im|m];
    reflexivity.
Qed.

Lemma read_messages_ignores_server (s : string) (obj : JsObject) :
  get "server" obj = None ->
  read_messages client (Some (("server", JString s) :: obj))
  = read_messages client (Some obj).
Proof.
  intros Hnone.
  unfold read_messages, read_messages_formatted, ReadMessagesSchema_parse, Zod.field.
  change (get "server" (("server", JString s) :: obj)) with (Some (JString s)).
  change (get "channel" (("server", JString s) :: obj)) with (get "channel" obj).
  change (get "limit" (("server", JString s) :: obj)) with (get "limit" obj).
  rewrite Hnone. simpl Zod.optional.
  destruct (Zod.string_ ["channel"] (get "channel" obj)) as [ic|c];
    destruct (limit_schema ["limit"] (get "limit" obj)) as [il|l];
    reflexivity.
Qed.

(** Whatever server a call names, the handler answers as if it named
    none. *)
Lemma handler_ignores_server (name s : string) (obj : JsObject) :
  get "server" obj = None ->
  handler client name (Some (("server", JString s) :: obj))
  = handler client name (Some obj).
Proof.
  intros Hnone. unfold handler.
  now rewrite send_message_ignores_server, read_messages_ignores_server.
Qed.

End HandlerFacts.

(** [C1], the code at the failing inputs.  The handlers call
    [findChannel(channelIdentifier)] without the parsed [server].  With the
    bot in [Acme] and [Beta], [findChannel("general", "S2")] is the channel
    of [Beta], but [send-message] with [server = "S2"] fails, asking for the
    server to be named.  With the bot in [Acme] only, the name [Beta]
    resolves to no server, and [send-message] with [server = "Beta"] sends
    to the channel of [Acme]. *)
Theorem handler_drops_server_argument :
  outcome (findChannel TwoServers.both "general" (Some "S2"))
  = inr TwoServers.beta_general /\
  handler TwoServers.both "send-message" (TwoServers.to_general "S2")
  = ([], inl (JsError MultiServerNoDefault
       ("Bot is in multiple servers. Please specify server name or ID. "
        ++ "Available servers: " ++ dquote ++ "Acme" ++ dquote ++ ", "
        ++ dquote ++ "Beta" ++ dquote))) /\
  (exists m, outcome (findClan TwoServers.only_acme (Some "Beta"))
             = inl (JsError NotFound m)) /\
  handler TwoServers.only_acme "send-message" (TwoServers.to_general "Beta")
  = ([ChannelsFetch "general"; ChannelSend "C1" "hi"],
     inr (mkToolResult "Message sent successfully to #general in Acme. Message ID: M1")).
Proof.
  split; [reflexivity|]. split; [reflexivity|].
  split; [eexists; reflexivity|]. reflexivity.
Qed.

(** ** The limit of [read-messages] *)

Section LimitFacts.

Context {L : LowerCase}.

Lemma limit_schema_accepts (p : list string) (q : Q) :
  1 <= q <= 100 -> limit_schema p (Some (JNumber q)) = inr q.
Proof.
  intros [Hlo Hhi]. unfold limit_schema, Zod.default, Zod.number.
  unfold Zod.run_checks, Zod.min, Zod.max.
  apply Qle_bool_iff in Hlo, Hhi.
  change (inject_Z 1) with 1. change (inject_Z 100) with 100.
  now rewrite Hlo, Hhi.
Qed.

Lemma limit_schema_rejects (p : list string) (q : Q) :
  ~ (1 <= q <= 100) ->
  exists issue issues, limit_schema p (Some (JNumber q)) = inl (issue :: issues).
Proof.
  intros Hout. unfold limit_schema, Zod.default, Zod.number.
  unfold Zod.run_checks, Zod.min, Zod.max.
  change (inject_Z 1) with 1. change (inject_Z 100) with 100.
  destruct (Qle_bool 1 q) eqn:Hlo; [|now eexists; eexists].
  destruct (Qle_bool q 100) eqn:Hhi; [|now eexists; eexists].
  apply Qle_bool_iff in Hlo, Hhi. now destruct Hout.
Qed.

Lemma limit_schema_inv (p : list string) (v : option Json) (q : Q) :
  limit_schema p v = inr q ->
  match v with
  | None => q = inject_Z 50
  | Some j => j = JNumber q /\ 1 <= q <= 100
  end.
Proof.
  unfold limit_schema, Zod.default, Zod.number.
  destruct v as [[| |q'| | |]|]; try discriminate; [|now intros [= <-]].
  unfold Zod.run_checks, Zod.min, Zod.max.
  change (inject_Z 1) with 1. change (inject_Z 100) with 100.
  destruct (Qle_bool 1 q') eqn:Hlo; [|discriminate].
  destruct (Qle_bool q' 100) eqn:Hhi; [|discriminate].
  intros [= <-]. apply Qle_bool_iff in Hlo, Hhi. auto.
Qed.

(** The limit of successfully parsed arguments. *)
Lemma parsed_limit (obj : JsObject) (parsed : ReadMessagesArgs) :
  ReadMessagesSchema_parse (Some obj) = inr parsed ->
  match get "limit" obj with
  | None => rm_limit parsed = inject_Z 50
  | Some v => v = JNumber (rm_limit parsed) /\ 1 <= rm_limit parsed <= 100
  end.
Proof.
  unfold ReadMessagesSchema_parse.
  destruct (Zod.field (Zod.optional Zod.string_) "server" obj) as [i1|s];
    destruct (Zod.field Zod.string_ "channel" obj) as [ic|c];
    destruct (Zod.field limit_schema "limit" obj) as [il|l] eqn:El;
    try discriminate.
  intros [= <-]. simpl rm_limit. exact (limit_schema_inv _ _ _ El).
Qed.

(** A failed parse of the arguments of [read-messages] ends the call with
    a validation error before anything is asked of the platform. *)
Lemma read_messages_invalid (client : MezonClient) (args : option JsObject)
      (issues : list ZodIssue) :
  ReadMessagesSchema_parse args = inl issues ->
  handler client "read-messages" args
  = ([], inl (JsError ValidationError
                ("Invalid arguments: " ++ join ", " (map show_issue issues)))).
Proof.
  intros E. unfold handler. simpl String.eqb. cbv iota.
  unfold read_messages, read_messages_formatted. now rewrite E.
Qed.

End LimitFacts.

(** [C7], the claim as stated fails: the schema is [z.number()] without
    [int()], so the limit 2.5 passes validation although it is no integer,
    and the handler asks the platform for 2.5 messages. *)
Lemma limit_not_integer_counterexample :
  ReadMessagesSchema_parse (Limits.random_with (5 # 2))
  = inr (mkReadMessagesArgs None "random" (5 # 2)) /\
  trace (handler Limits.client "read-messages" (Limits.random_with (5 # 2)))
  = [ChannelsFetch "random"; MessagesFetch "C2" (5 # 2)] /\
  ~ integer_limit (5 # 2).
Proof.
  split; [reflexivity|]. split; [reflexivity|].
  intros (n & _ & E). unfold Qeq in E. simpl in E. lia.
Qed.

(** [C7], amended.  The limit of [read-messages] is validated as a number
    from 1 to 100 (whole or not) with default 50: of accepted arguments the
    limit is 50 when the entry is absent and otherwise the number given,
    which lies in the range; every number in the range is accepted; a number
    outside the range, such as 150 or 0, ends the call with a validation
    error before anything is asked of the platform. *)
Theorem read_messages_limit {L : LowerCase} (client : MezonClient) (obj : JsObject) :
  (forall parsed,
     ReadMessagesSchema_parse (Some obj) = inr parsed ->
     match get "limit" obj with
     | None => rm_limit parsed = inject_Z 50
     | Some v => v = JNumber (rm_limit parsed) /\ 1 <= rm_limit parsed <= 100
     end) /\
  (forall q,
     get "limit" obj = Some (JNumber q) -> 1 <= q <= 100 ->
     Zod.field limit_schema "limit" obj = inr q) /\
  (forall q,
     get "limit" obj = Some (JNumber q) -> ~ (1 <= q <= 100) ->
     exists m,
       handler client "read-messages" (Some obj)
       = ([], inl (JsError ValidationError m))).
Proof.
  split; [|split].
  - intros parsed. apply parsed_limit.
  - intros q Hget Hin. unfold Zod.field. rewrite Hget.
    now apply limit_schema_accepts.
  - intros q Hget Hout.
    destruct (limit_schema_rejects ["limit"] q Hout) as (issue & issues & E).
    assert (exists all, ReadMessagesSchema_parse (Some obj) = inl all) as [all Hall].
    { unfold ReadMessagesSchema_parse, Zod.field. rewrite Hget, E.
      destruct (Zod.optional Zod.string_ ["server"] (get "server" obj)) as [i1|s];
        destruct (Zod.string_ ["channel"] (get "channel" obj)) as [ic|c];
        eexists; reflexivity. }
    eexists. exact (read_messages_invalid client _ _ Hall).
Qed.

Lemma read_messages_limit_witness :
  rm_limit (mkReadMessagesArgs None "random" (inject_Z 50)) = inject_Z 50 /\
  (exists m, handler Limits.client "read-messages" (Limits.random_with 150)
             = ([], inl (JsError ValidationError m))) /\
  (exists m, handler Limits.client "read-messages" (Limits.random_with 0)
             = ([], inl (JsError ValidationError m))).
Proof.
  split; [|split].
  - apply (proj1 (read_messages_limit Limits.client
                    [("channel", JString "random")])
             (mkReadMessagesArgs None "random" (inject_Z 50))).
    reflexivity.
  - apply (proj2 (proj2 (read_messages_limit Limits.client
                           [("channel", JString "random"); ("limit", JNumber 150)]))
             150); [reflexivity|].
    intros [_ H]. revert H. apply Qlt_not_le. reflexivity.
  - apply (proj2 (proj2 (read_messages_limit Limits.client
                           [("channel", JString "random"); ("limit", JNumber 0)]))
             0); [reflexivity|].
    intros [H _]. revert H. apply Qlt_not_le. reflexivity.
Defined.

(** ** The result of [read-messages] *)

Section ReadMessages.

Context {L : LowerCase}.

Variable client : MezonClient.




End ReadMessages.

Section ReadingBack.

Lemma drop_app (p s : string) : drop (String.length p) (p ++ s) = s.
Proof. induction p as [|a p IH]; [reflexivity|exact IH]. Qed.

Lemma expect_app (p s : string) : JSON.expect p (p ++ s) = Some s.
Proof. unfold JSON.expect. now rewrite startsWith_app, drop_app. Qed.

(** What [quote_char] writes for a character reads back as the
    character. *)
Lemma unquote_quote_char (c : ascii) (body : string) :
  JSON.unquote_chars (JSON.quote_char c ++ body)
  = JSON.push c (JSON.unquote_chars body).
Proof. destruct c as [[] [] [] [] [] [] [] []]; reflexivity. Qed.

(** What [quote_chars] writes for a string, closed by a quote, reads back
    as the string. *)
Lemma unquote_quote (s rest : string) :
  JSON.unquote_chars (JSON.quote_chars s ++ dquote ++ rest) = Some (s, rest).
Proof.
  induction s as [|c s IH]; [reflexivity|].
  change (JSON.quote_chars (String c s))
    with (JSON.quote_char c ++ JSON.quote_chars s).
  now rewrite append_assoc, unquote_quote_char, IH.
Qed.

Lemma read_string_quote (s rest : string) :
  JSON.read_string (JSON.quote s ++ rest) = Some (s, rest).
Proof.
  unfold JSON.read_string, JSON.quote.
  rewrite !append_assoc, expect_app. apply unquote_quote.
Qed.

Lemma read_member_member (key value rest : string) :
  JSON.read_member key (JSON.member (key, value) ++ rest) = Some (value, rest).
Proof.
  assert (E : JSON.member (key, value) ++ rest
              = ("    " ++ JSON.quote key ++ ": ") ++ JSON.quote value ++ rest).
  { unfold JSON.member. cbn [fst snd]. now rewrite !append_assoc. }
  rewrite E. unfold JSON.read_member. rewrite expect_app.
  apply read_string_quote.
Qed.

Lemma next_member_member (key value rest : string) :
  JSON.next_member key (("," ++ JSON.newline) ++ JSON.member (key, value) ++ rest)
  = Some (value, rest).
Proof.
  unfold JSON.next_member. rewrite expect_app. apply read_member_member.
Qed.

(** An object reads back as itself. *)
Lemma read_object_object (m : FormattedMessage) (rest : string) :
  JSON.read_object (JSON.object m ++ rest) = Some (m, rest).
Proof.
  destruct m as [channel server author content timestamp].
  assert (E : JSON.object (mkFormatted channel server author content timestamp) ++ rest
              = ("  {" ++ JSON.newline)
                ++ JSON.member ("channel", channel)
                ++ ("," ++ JSON.newline) ++ JSON.member ("server", server)
                ++ ("," ++ JSON.newline) ++ JSON.member ("author", author)
                ++ ("," ++ JSON.newline) ++ JSON.member ("content", content)
                ++ ("," ++ JSON.newline) ++ JSON.member ("timestamp", timestamp)
                ++ (JSON.newline ++ "  }") ++ rest).
  { unfold JSON.object, entries.
    cbn [map fm_channel fm_server fm_author fm_content fm_timestamp JsString.join].
    now rewrite !append_assoc. }
  rewrite E. unfold JSON.read_object.
  rewrite expect_app, read_member_member, !next_member_member, expect_app.
  reflexivity.
Qed.

Lemma length_app (u v : string) :
  String.length (u ++ v) = (String.length u + String.length v)%nat.
Proof. induction u as [|a u IH]; simpl; [reflexivity|now rewrite IH]. Qed.

Lemma object_not_empty (m : FormattedMessage) :
  (1 <= String.length (JSON.object m))%nat.
Proof. unfold JSON.object. simpl. lia. Qed.

Lemma join_objects_length (ms : list FormattedMessage) (rest : string) :
  (List.length ms
   <= String.length (join ("," ++ JSON.newline) (map JSON.object ms) ++ rest))%nat.
Proof.
  revert rest. induction ms as [|m [|m' ms'] IH]; intros rest.
  - simpl. lia.
  - cbn [map JsString.join List.length]. rewrite length_app.
    pose proof (object_not_empty m). lia.
  - change (join ("," ++ JSON.newline) (map JSON.object (m :: m' :: ms')))
      with (JSON.object m ++ ("," ++ JSON.newline)
            ++ join ("," ++ JSON.newline) (map JSON.object (m' :: ms'))).
    rewrite !append_assoc, length_app.
    pose proof (IH rest) as H. pose proof (object_not_empty m) as Hm.
    change (String.length ("," ++ JSON.newline
              ++ join ("," ++ JSON.newline) (map JSON.object (m' :: ms')) ++ rest))
      with (S (S (String.length
                    (join ("," ++ JSON.newline) (map JSON.object (m' :: ms')) ++ rest)))).
    simpl List.length in *. lia.
Qed.

Lemma read_objects_objects (ms : list FormattedMessage) (m : FormattedMessage)
      (fuel : nat) :
  (List.length (m :: ms) <= fuel)%nat ->
  JSON.read_objects fuel
    (join ("," ++ JSON.newline) (map JSON.object (m :: ms)) ++ JSON.newline ++ "]")
  = Some (m :: ms).
Proof.
  revert m fuel. induction ms as [|m' ms IH]; intros m fuel Hfuel;
    (destruct fuel as [|fuel]; [simpl in Hfuel; lia|]).
  - cbn [map JsString.join JSON.read_objects].
    rewrite read_object_object. now rewrite String.eqb_refl.
  - change (join ("," ++ JSON.newline) (map JSON.object (m :: m' :: ms)))
      with (JSON.object m ++ ("," ++ JSON.newline)
            ++ join ("," ++ JSON.newline) (map JSON.object (m' :: ms))).
    rewrite !append_assoc. cbn [JSON.read_objects].
    rewrite read_object_object.
    replace (String.eqb _ (JSON.newline ++ "]")) with false by reflexivity.
    rewrite <- (append_assoc "," JSON.newline), expect_app.
    rewrite IH; [reflexivity|]. simpl in *. lia.
Qed.

(** The text [stringify] writes for a list of objects reads back as the
    list: the text determines every object, key by key. *)
Lemma read_stringify (ms : list FormattedMessage) :
  JSON.read (JSON.stringify ms) = Some ms.
Proof.
  destruct ms as [|m ms]; [reflexivity|].
  unfold JSON.read, JSON.stringify.
  replace (String.eqb _ "[]") with false by reflexivity.
  rewrite <- (append_assoc "[" JSON.newline), expect_app.
  apply read_objects_objects.
  match goal with |- (_ <= String.length ?t)%nat =>
    change t with ("[" ++ JSON.newline
                   ++ join ("," ++ JSON.newline) (map JSON.object (m :: ms))
                   ++ JSON.newline ++ "]")
  end.
  pose proof (join_objects_length (m :: ms) (JSON.newline ++ "]")) as H.
  rewrite length_app, length_app. lia.
Qed.

End ReadingBack.



Section ScenarioFacts.


Lemma acme_consistent : consistent (Scenario.platform [Scenario.acme]).
Proof.
  split.
  - intros g c [<-|[]] [<-|[<-|[]]]; split; reflexivity.
  - intros ident c g Hfetch [<-|[]] _.
    simpl in Hfetch. unfold Scenario.find_channel in Hfetch.
    destruct (find _ _) as [c'|] eqn:Efind; [|discriminate].
    injection Hfetch as ->.
    apply find_some in Efind. destruct Efind as [[<-|[<-|[]]] _]; reflexivity.
Qed.

End ScenarioFacts.


(** ** Failures and the life of the process *)

Section Quiet.

Context {L : LowerCase}.



Variable client : MezonClient.






End Quiet.



(** ** Further properties of the server resolver *)

(** [X1] An identifier that is missing or the empty string is no
    identifier: no fetch is made, and the resolution succeeds exactly when
    the directory holds one server, which is then returned; with no server
    at all it fails with the same [MultiServerNoDefault] error as with
    several. *)
Theorem findClan_absent_identifier {L : LowerCase}
        (client : MezonClient) (server : option string) :
  absent server = true ->
  findClan client server = findClan client None /\
  trace (findClan client server) = [] /\
  (forall g, outcome (findClan client server) = inr g <-> clans client = [g]) /\
  (List.length (clans client) <> 1%nat ->
   outcome (findClan client server)
   = inl (JsError MultiServerNoDefault
            ("Bot is in multiple servers. Please specify server name or ID. "
             ++ "Available servers: " ++ join ", " (map quoted_name (clans client))))).
Proof.
  intros Habsent.
  assert (E : findClan client server = findClan client None).
  { destruct server as [ident|]; [|reflexivity].
    simpl in Habsent. unfold findClan. now rewrite Habsent. }
  rewrite E. unfold findClan, findClan_default, available_servers.
  split; [reflexivity|].
  destruct (clans client) as [|g1 [|g2 rest]].
  - split; [reflexivity|]. split; [|reflexivity].
    intros g; split; discriminate.
  - split; [reflexivity|]. split; [|intros H; now destruct H].
    intros g; split; intros [= <-]; reflexivity.
  - split; [reflexivity|]. split; [|reflexivity].
    intros g; split; discriminate.
Qed.

Lemma findClan_absent_identifier_witness :
  findClan (Scenario.platform [Scenario.acme]) (Some EmptyString)
  = findClan (Scenario.platform [Scenario.acme]) None /\
  exists m,
    outcome (findClan (Scenario.platform []) (Some EmptyString))
    = inl (JsError MultiServerNoDefault m).
Proof.
  split.
  - apply (findClan_absent_identifier (Scenario.platform [Scenario.acme])
             (Some EmptyString) eq_refl).
  - eexists.
    apply (findClan_absent_identifier (Scenario.platform []) (Some EmptyString) eq_refl).
    simpl. discriminate.
Defined.

(** [X2] A server that [findClan] returns for a supplied identifier is the
    one the fetch by ID resolved to, or, when the fetch rejected, a server
    of the directory whose name equals the identifier up to case and which
    is the only such server of the directory: a name shared by several
    servers never resolves. *)
Theorem findClan_returns {L : LowerCase} (client : MezonClient) (ident : string)
        (t : list Effect) (g : Clan) :
  truthy ident = true ->
  findClan client (Some ident) = (t, inr g) ->
  t = [ClansFetch ident] /\
  (clans_fetch client ident = Resolved (Some g) \/
   clans_fetch client ident = Rejected /\
   In g (clans client) /\
   toLowerCase (clan_name g) = toLowerCase ident /\
   forall g', In g' (clans client) ->
              toLowerCase (clan_name g') = toLowerCase ident -> g' = g).
Proof.
  intros Hid. unfold findClan. rewrite Hid. simpl negb. cbv iota.
  destruct (clans_fetch client ident) as [[g0|]|] eqn:Efetch.
  - intros [= <- <-]. auto.
  - discriminate.
  - unfold findClan_by_name.
    destruct (filter (clan_name_matches ident) (clans client))
      as [|g1 [|g2 rest]] eqn:Efilter; try discriminate.
    intros [= <- <-]. split; [reflexivity|]. right. split; [reflexivity|].
    assert (Hin : forall g', In g' (filter (clan_name_matches ident) (clans client))
                             <-> g' = g1).
    { intros g'. rewrite Efilter. simpl. split; [intros [H|[]]; auto|auto]. }
    destruct (proj1 (name_matches_iff client ident g1) (proj2 (Hin g1) eq_refl))
      as [H1 H2].
    split; [exact H1|]. split; [exact H2|].
    intros g' Hg' Hname. apply Hin, name_matches_iff. auto.
Qed.

Lemma findClan_returns_witness :
  clans_fetch (Scenario.platform [Scenario.acme]) "ACME" = Rejected /\
  forall g', In g' [Scenario.acme] ->
             toLowerCase (clan_name g') = toLowerCase "ACME" -> g' = Scenario.acme.
Proof.
  destruct (findClan_returns (L := ascii_LowerCase)
              (Scenario.platform [Scenario.acme]) "ACME"
              [ClansFetch "ACME"] Scenario.acme eq_refl eq_refl)
    as [_ [H|(H & _ & _ & Hunique)]].
  - discriminate H.
  - split; [exact H|exact Hunique].
Defined.

(** [X3] Identifiers that differ in letter case only name the same server:
    when the fetch by ID rejects both, [findClan] returns the same server
    for both or fails for both with an error of the same kind. *)
Theorem findClan_case_insensitive {L : LowerCase}
        (client : MezonClient) (i1 i2 : string) :
  truthy i1 = true -> truthy i2 = true ->
  toLowerCase i1 = toLowerCase i2 ->
  clans_fetch client i1 = Rejected ->
  clans_fetch client i2 = Rejected ->
  same_server (outcome (findClan client (Some i1)))
              (outcome (findClan client (Some i2))).
Proof.
  intros H1 H2 Hlower F1 F2. unfold findClan.
  rewrite H1, H2, F1, F2. simpl negb. cbv iota.
  unfold findClan_by_name.
  assert (E : filter (clan_name_matches i1) (clans client)
              = filter (clan_name_matches i2) (clans client)).
  { apply filter_ext. intros g. unfold clan_name_matches. now rewrite Hlower. }
  rewrite E.
  destruct (filter (clan_name_matches i2) (clans client)) as [|g1 [|g2 rest]];
    exact eq_refl.
Qed.

Lemma findClan_case_insensitive_witness :
  same_server (outcome (findClan (Scenario.platform [Scenario.acme]) (Some "ACME")))
              (outcome (findClan (Scenario.platform [Scenario.acme]) (Some "acme"))) /\
  outcome (findClan (Scenario.platform [Scenario.acme]) (Some "acme"))
  = inr Scenario.acme.
Proof.
  split; [|reflexivity].
  apply (findClan_case_insensitive (Scenario.platform [Scenario.acme]) "ACME" "acme");
    reflexivity.
Defined.

(** ** Further properties of the channel resolver *)

(** [X4] A channel that [findChannel] returns is text-capable and belongs to
    the server that [findClan] resolved: either the fetch by ID resolved to
    it and its server has the ID of the resolved server, or the fetch
    rejected and it is the only channel in the cache of the resolved server
    that the name comparison accepts. *)
Theorem findChannel_returns {L : LowerCase} (client : MezonClient) (ident : string)
        (server : option string) (t : list Effect) (c : Channel) :
  findChannel client ident server = (t, inr c) ->
  isTextChannel c = true /\
  exists t0 guild,
    findClan client server = (t0, inr guild) /\
    t = (t0 ++ [ChannelsFetch ident])%list /\
    (channels_fetch client ident = Resolved (Some c) /\
     channel_guild_id c = clan_id guild
     \/
     channels_fetch client ident = Rejected /\
     In c (channels_cache guild) /\
     forall c', In c' (channels_cache guild) ->
                channel_name_matches ident c' = true -> c' = c).
Proof.
  intros E.
  destruct (findClan client server) as [t0 [e|guild]] eqn:Eclan.
  - rewrite (findChannel_findClan_fails _ _ _ _ _ Eclan) in E. discriminate.
  - rewrite (findChannel_after_findClan _ _ _ _ _ Eclan) in E.
    injection E as <- E.
    destruct (channels_fetch client ident) as [fetched|] eqn:Efetch.
    + destruct fetched as [c'|]; simpl in E; [|discriminate].
      destruct (isTextChannel c') eqn:Htext; [|discriminate].
      destruct (String.eqb_spec (channel_guild_id c') (clan_id guild)) as [Hid|];
        [|discriminate].
      injection E as <-. split; [exact Htext|].
      exists t0, guild. split; [reflexivity|]. split; [reflexivity|]. auto.
    + unfold findChannel_by_name in E.
      destruct (filter (channel_name_matches ident) (channels_cache guild))
        as [|c1 [|c2 rest]] eqn:Efilter; try discriminate.
      injection E as <-.
      assert (Hin : forall c', In c' (channels_cache guild)
                               /\ channel_name_matches ident c' = true <-> c' = c1).
      { intros c'. rewrite <- filter_In, Efilter. simpl.
        split; [intros [H|[]]; auto|auto]. }
      destruct (proj2 (Hin c1) eq_refl) as [Hc Hm].
      unfold channel_name_matches in Hm. apply andb_true_iff in Hm.
      split; [exact (proj1 Hm)|].
      exists t0, guild. split; [reflexivity|]. split; [reflexivity|].
      right. split; [reflexivity|]. split; [exact Hc|].
      intros c' Hc' Hm'. apply Hin. auto.
Qed.

Lemma findChannel_returns_witness :
  isTextChannel Scenario.random = true /\
  exists t0 guild,
    findClan (Scenario.platform [Scenario.acme]) None = (t0, inr guild) /\
    [ChannelsFetch "C2"] = (t0 ++ [ChannelsFetch "C2"])%list.
Proof.
  destruct (findChannel_returns (Scenario.platform [Scenario.acme]) "C2" None
              [ChannelsFetch "C2"] Scenario.random eq_refl)
    as (Htext & t0 & guild & Eclan & Et & _).
  split; [exact Htext|]. now exists t0, guild.
Defined.

(** [X5] When the fetch by ID of the channel rejects, the identifier is
    compared with the names of the text channels of the resolved server.
    No match: [NotFound], and the message names the server and lists every
    text channel of the server as [#name].  One match: that channel.  More
    matches: [Ambiguous], and the message lists each match as
    [#name (id)]. *)
Theorem findChannel_name_fallback {L : LowerCase} (client : MezonClient) (ident : string)
        (server : option string) (t : list Effect) (guild : Clan) :
  findClan client server = (t, inr guild) ->
  channels_fetch client ident = Rejected ->
  let matches := filter (channel_name_matches ident) (channels_cache guild) in
  match matches with
  | [] =>
      exists m,
        outcome (findChannel client ident server) = inl (JsError NotFound m) /\
        includes (clan_name guild) m = true /\
        forall c, In c (channels_cache guild) -> isTextChannel c = true ->
                  includes ("#" ++ channel_name c) m = true
  | [c] => outcome (findChannel client ident server) = inr c
  | _ :: _ :: _ =>
      exists m,
        outcome (findChannel client ident server) = inl (JsError Ambiguous m) /\
        includes (clan_name guild) m = true /\
        forall c, In c matches ->
                  includes ("#" ++ channel_name c ++ " (" ++ channel_id c ++ ")") m = true
  end.
Proof.
  intros Eclan Efetch matches.
  rewrite (findChannel_after_findClan _ _ _ _ _ Eclan), Efetch.
  unfold outcome. cbn [snd]. unfold findChannel_by_name. fold matches.
  pose proof (includes_refl (clan_name guild)) as Hguild.
  destruct matches as [|c1 [|c2 rest]] eqn:E.
  - eexists. split; [reflexivity|]. split; [shown_in_message|].
    intros c Hc Htext.
    assert (Hq : In (quoted_channel c)
                    (map quoted_channel (filter isTextChannel (channels_cache guild)))).
    { apply in_map, filter_In. auto. }
    pose proof (includes_join ", " _ _ Hq) as Hjoin.
    assert (Hshown : includes ("#" ++ channel_name c)
                       (join ", " (map quoted_channel
                                     (filter isTextChannel (channels_cache guild))))
                     = true).
    { apply includes_trans with (quoted_channel c); [|exact Hjoin].
      unfold quoted_channel.
      rewrite <- (append_assoc "#" (channel_name c) dquote).
      apply includes_app_r, includes_here. }
    shown_in_message.
  - reflexivity.
  - eexists. split; [reflexivity|]. split; [shown_in_message|].
    intros c Hc.
    pose proof (includes_join ", " _ _ (in_map channel_with_id _ _ Hc)) as Hshown.
    unfold channel_with_id in Hshown at 1. shown_in_message.
Qed.

Lemma findChannel_name_fallback_witness :
  exists m,
    outcome (findChannel HashNames.client "#general" None) = inl (JsError Ambiguous m) /\
    includes "#general (C1)" m = true /\ includes "##general (C2)" m = true.
Proof.
  pose proof (findChannel_name_fallback HashNames.client "#general" None []
                HashNames.acme eq_refl eq_refl) as H.
  cbv zeta in H.
  change (filter (channel_name_matches "#general") (channels_cache HashNames.acme))
    with [HashNames.general; HashNames.hash_general] in H.
  cbv iota in H. destruct H as (m & E & _ & Hall).
  exists m. split; [exact E|]. split.
  - apply (Hall HashNames.general). simpl. auto.
  - apply (Hall HashNames.hash_general). simpl. auto.
Defined.

(** [X6] Identifiers that differ in letter case only name the same channel:
    within the resolved server, when the fetch by ID rejects both, they
    select the same channels, so [findChannel] returns the same channel for
    both or fails for both with an error of the same kind. *)
Theorem findChannel_case_insensitive {L : LowerCase}
        (client : MezonClient) (server : option string)
        (t : list Effect) (guild : Clan) (i1 i2 : string) :
  findClan client server = (t, inr guild) ->
  toLowerCase i1 = toLowerCase i2 ->
  channels_fetch client i1 = Rejected ->
  channels_fetch client i2 = Rejected ->
  (forall c, channel_name_matches i1 c = channel_name_matches i2 c) /\
  same_resolution (outcome (findChannel client i1 server))
                  (outcome (findChannel client i2 server)).
Proof.
  intros Eclan Hlower F1 F2.
  assert (Hsame : forall c, channel_name_matches i1 c = channel_name_matches i2 c).
  { intros c. unfold channel_name_matches. now rewrite Hlower. }
  split; [exact Hsame|].
  rewrite !(findChannel_after_findClan _ _ _ _ _ Eclan), F1, F2.
  unfold outcome at 1 3. cbn [snd]. unfold findChannel_by_name.
  rewrite (filter_ext _ _ Hsame).
  destruct (filter (channel_name_matches i2) (channels_cache guild))
    as [|c1 [|c2 rest]]; exact eq_refl.
Qed.

Lemma findChannel_case_insensitive_witness :
  same_resolution
    (outcome (findChannel (Scenario.platform [Scenario.acme]) "RANDOM" None))
    (outcome (findChannel (Scenario.platform [Scenario.acme]) "Random" None)) /\
  outcome (findChannel (Scenario.platform [Scenario.acme]) "Random" None)
  = inr Scenario.random.
Proof.
  split; [|reflexivity].
  apply (findChannel_case_insensitive (Scenario.platform [Scenario.acme]) None []
           Scenario.acme "RANDOM" "Random"); reflexivity.
Defined.

(** [X7] [findChannel] asks the platform for the server first, once and only
    for a supplied identifier, and for the channel next, once and only when
    the server was resolved; a failure of the server resolution is the
    failure of [findChannel], unchanged. *)
Theorem findChannel_calls {L : LowerCase} (client : MezonClient) (ident : string)
        (server : option string) :
  trace (findClan client server)
  = (if absent server then []
     else match server with Some s => [ClansFetch s] | None => [] end) /\
  trace (findChannel client ident server)
  = (trace (findClan client server)
     ++ match outcome (findClan client server) with
        | inr _ => [ChannelsFetch ident]
        | inl _ => []
        end)%list /\
  forall e, outcome (findClan client server) = inl e ->
            outcome (findChannel client ident server) = inl e.
Proof.
  split; [|split].
  - destruct server as [s|]; simpl absent.
    + unfold findClan. destruct (truthy s); simpl negb; cbv iota.
      * destruct (clans_fetch client s) as [[g|]|]; try reflexivity.
        unfold findClan_by_name.
        destruct (filter _ _) as [|g1 [|g2 rest]]; reflexivity.
      * unfold findClan_default.
        destruct (clans client) as [|g1 [|g2 rest]]; reflexivity.
    + unfold findClan, findClan_default.
      destruct (clans client) as [|g1 [|g2 rest]]; reflexivity.
  - destruct (findClan client server) as [t0 [e|guild]] eqn:Eclan.
    + rewrite (findChannel_findClan_fails _ _ _ _ _ Eclan). simpl.
      now rewrite app_nil_r.
    + now rewrite (findChannel_after_findClan _ _ _ _ _ Eclan).
  - intros e He.
    destruct (findClan client server) as [t0 [e'|guild]] eqn:Eclan;
      simpl in He; [|discriminate].
    injection He as ->.
    now rewrite (findChannel_findClan_fails _ _ _ _ _ Eclan).
Qed.

Lemma findChannel_calls_witness :
  trace (findChannel TwoServers.both "general" None) = [] /\
  exists m, outcome (findChannel TwoServers.both "general" None)
            = inl (JsError MultiServerNoDefault m).
Proof.
  destruct (findChannel_calls TwoServers.both "general" None) as (_ & Et & Hfail).
  split; [exact Et|]. eexists. apply Hfail. reflexivity.
Defined.

(** ** Further properties of the tool handler *)

Section HandlerRuns.

Context {L : LowerCase}.

Variable client : MezonClient.

Lemma forallb_bind {A B} (P : Effect -> bool) (m : Async A) (f : A -> Async B) :
  forallb P (trace m) = true ->
  (forall a, forallb P (trace (f a)) = true) ->
  forallb P (trace (bind m f)) = true.
Proof.
  destruct m as [t [e|a]]; simpl; intros Hm Hf; [exact Hm|].
  specialize (Hf a). destruct (f a) as [t' r]. simpl in *.
  now rewrite forallb_app, Hm, Hf.
Qed.

Lemma findClan_lookups (server : option string) :
  forallb is_lookup (trace (findClan client server)) = true.
Proof.
  assert (Hdefault : forallb is_lookup (trace (findClan_default client)) = true).
  { unfold findClan_default.
    destruct (clans client) as [|g1 [|g2 rest]]; reflexivity. }
  destruct server as [ident|]; [|exact Hdefault].
  unfold findClan. destruct (truthy ident); [|exact Hdefault].
  apply forallb_bind; [reflexivity|]. intros _.
  destruct (clans_fetch client ident) as [[g|]|]; try reflexivity.
  unfold findClan_by_name.
  destruct (filter _ _) as [|g1 [|g2 rest]]; reflexivity.
Qed.

Lemma findChannel_lookups (ident : string) (server : option string) :
  forallb is_lookup (trace (findChannel client ident server)) = true.
Proof.
  unfold findChannel. apply forallb_bind; [apply findClan_lookups|]. intros guild.
  apply forallb_bind; [reflexivity|]. intros _.
  destruct (channels_fetch client ident) as [fetched|].
  - destruct (accepted_by_id guild fetched); reflexivity.
  - unfold findChannel_by_name.
    destruct (filter _ _) as [|c1 [|c2 rest]]; reflexivity.
Qed.

Lemma findChannel_text (ident : string) (server : option string)
      (t : list Effect) (c : Channel) :
  findChannel client ident server = (t, inr c) -> isTextChannel c = true.
Proof.
  intros E.
  destruct (findClan client server) as [t0 [e|guild]] eqn:Eclan.
  - rewrite (findChannel_findClan_fails _ _ _ _ _ Eclan) in E. discriminate.
  - rewrite (findChannel_after_findClan _ _ _ _ _ Eclan) in E.
    injection E as _ E.
    destruct (channels_fetch client ident) as [[c'|]|]; simpl in E;
      try discriminate.
    + destruct (isTextChannel c') eqn:Htext; [|discriminate].
      destruct (String.eqb _ _); [|discriminate]. now injection E as <-.
    + destruct (findChannel_by_name_returns _ _ _ E) as [_ Hm].
      unfold channel_name_matches in Hm. now apply andb_true_iff in Hm.
Qed.

(** [send-message], step by step. *)
Lemma send_message_runs (args : option JsObject) :
  send_message client args
  = match SendMessageSchema_parse args with
    | inl issues => ([], inl (ZodError issues))
    | inr parsed =>
        match findChannel client (sm_channel parsed) None with
        | (t, inl e) => (t, inl e)
        | (t, inr channel) =>
            ((t ++ [ChannelSend (channel_id channel) (sm_message parsed)])%list,
             match channel_send client channel (sm_message parsed) with
             | inl e => inl e
             | inr sent_id => inr (mkToolResult (confirmation channel sent_id))
             end)
        end
    end.
Proof.
  unfold send_message.
  destruct (SendMessageSchema_parse args) as [issues|parsed]; [reflexivity|].
  unfold parse. cbn [bind ret app].
  destruct (findChannel client (sm_channel parsed) None) as [t [e|channel]];
    [reflexivity|].
  cbn [bind perform await].
  destruct (channel_send client channel (sm_message parsed)); reflexivity.
Qed.

(** [read-messages], step by step. *)
Lemma read_messages_runs (args : option JsObject) :
  read_messages client args
  = match ReadMessagesSchema_parse args with
    | inl issues => ([], inl (ZodError issues))
    | inr parsed =>
        match findChannel client (rm_channel parsed) None with
        | (t, inl e) => (t, inl e)
        | (t, inr channel) =>
            ((t ++ [MessagesFetch (channel_id channel) (rm_limit parsed)])%list,
             match messages_fetch client channel (rm_limit parsed) with
             | inl e => inl e
             | inr messages =>
                 inr (mkToolResult
                        (JSON.stringify (map (format_message channel) messages)))
             end)
        end
    end.
Proof.
  unfold read_messages, read_messages_formatted.
  destruct (ReadMessagesSchema_parse args) as [issues|parsed]; [reflexivity|].
  unfold parse. cbn [bind ret app].
  destruct (findChannel client (rm_channel parsed) None) as [t [e|channel]];
    [reflexivity|].
  cbn [bind perform await].
  destruct (messages_fetch client channel (rm_limit parsed));
    cbn [bind ret app]; now rewrite ?app_nil_r.
Qed.

(** The handler performs the effects of the body of its [try] and reports
    what the body threw. *)
Lemma try_on_error (m : Async ToolResult) :
  try_catch m on_error
  = (trace m, match outcome m with inl e => inl (reported e) | inr r => inr r end).
Proof.
  destruct m as [t [[k msg|errors]|r]]; simpl; now rewrite ?app_nil_r.
Qed.

Lemma parsed_limit_range (args : option JsObject) (parsed : ReadMessagesArgs) :
  ReadMessagesSchema_parse args = inr parsed -> 1 <= rm_limit parsed <= 100.
Proof.
  destruct args as [obj|]; [|discriminate]. intros E.
  pose proof (parsed_limit obj parsed E) as H.
  destruct (get "limit" obj); [apply H|].
  rewrite H. split; discriminate.
Qed.

End HandlerRuns.

Section SchemaFacts.

Lemma string_inv (p : list string) (v : option Json) (s : string) :
  Zod.string_ p v = inr s <-> v = Some (JString s).
Proof.
  unfold Zod.string_. split.
  - destruct v as [[| | |s'| |]|]; try discriminate. now intros [= ->].
  - now intros ->.
Qed.

Lemma optional_string_inv (p : list string) (v : option Json) (o : option string) :
  Zod.optional Zod.string_ p v = inr o <-> v = option_map JString o.
Proof.
  unfold Zod.optional, Zod.string_. split.
  - destruct v as [[| | |s'| |]|]; try discriminate; now intros [= <-].
  - destruct o as [s|]; now intros ->.
Qed.

Lemma limit_schema_iff (p : list string) (v : option Json) (q : Q) :
  limit_schema p v = inr q
  <-> v = None /\ q = inject_Z 50 \/ v = Some (JNumber q) /\ 1 <= q <= 100.
Proof.
  split.
  - intros E. pose proof (limit_schema_inv _ _ _ E) as H.
    destruct v as [j|]; [right|left; auto].
    destruct H as [-> H]. auto.
  - intros [[-> ->]|[-> H]]; [reflexivity|now apply limit_schema_accepts].
Qed.

End SchemaFacts.

(** [X8] The arguments of [send-message] are accepted exactly when [channel]
    and [message] are strings and [server] is missing or a string; the
    parsed values are the strings given, and any other key is ignored.
    No arguments at all are refused. *)
Theorem SendMessageSchema_accepts (obj : JsObject) (parsed : SendMessageArgs) :
  (SendMessageSchema_parse (Some obj) = inr parsed
   <-> get "channel" obj = Some (JString (sm_channel parsed)) /\
       get "message" obj = Some (JString (sm_message parsed)) /\
       get "server" obj = option_map JString (sm_server parsed)) /\
  SendMessageSchema_parse None <> inr parsed.
Proof.
  split; [|discriminate].
  unfold SendMessageSchema_parse, Zod.field. split.
  - destruct (Zod.optional Zod.string_ ["server"] (get "server" obj)) as [i1|s] eqn:Es;
      destruct (Zod.string_ ["channel"] (get "channel" obj)) as [i2|c] eqn:Ec;
      destruct (Zod.string_ ["message"] (get "message" obj)) as [i3|m] eqn:Em;
      try discriminate.
    intros [= <-]. simpl.
    apply string_inv in Ec, Em. apply optional_string_inv in Es. auto.
  - destruct parsed as [s c m]. simpl. intros (Ec & Em & Es).
    apply (string_inv ["channel"]) in Ec. apply (string_inv ["message"]) in Em.
    apply (optional_string_inv ["server"]) in Es.
    now rewrite Es, Ec, Em.
Qed.

(** [X9] The arguments of [read-messages] are accepted exactly when
    [channel] is a string, [server] is missing or a string, and [limit] is
    missing, in which case the parsed limit is 50, or a number from 1 to
    100, which is then the parsed limit. *)
Theorem ReadMessagesSchema_accepts (obj : JsObject) (parsed : ReadMessagesArgs) :
  (ReadMessagesSchema_parse (Some obj) = inr parsed
   <-> get "channel" obj = Some (JString (rm_channel parsed)) /\
       get "server" obj = option_map JString (rm_server parsed) /\
       (get "limit" obj = None /\ rm_limit parsed = inject_Z 50 \/
        get "limit" obj = Some (JNumber (rm_limit parsed)) /\
        1 <= rm_limit parsed <= 100)) /\
  ReadMessagesSchema_parse None <> inr parsed.
Proof.
  split; [|discriminate].
  unfold ReadMessagesSchema_parse, Zod.field. split.
  - destruct (Zod.optional Zod.string_ ["server"] (get "server" obj)) as [i1|s] eqn:Es;
      destruct (Zod.string_ ["channel"] (get "channel" obj)) as [i2|c] eqn:Ec;
      destruct (limit_schema ["limit"] (get "limit" obj)) as [i3|l] eqn:El;
      try discriminate.
    intros [= <-]. simpl.
    apply string_inv in Ec. apply optional_string_inv in Es.
    apply limit_schema_iff in El. auto.
  - destruct parsed as [s c l]. simpl. intros (Ec & Es & El).
    apply (string_inv ["channel"]) in Ec.
    apply (optional_string_inv ["server"]) in Es.
    apply (limit_schema_iff ["limit"]) in El.
    now rewrite Es, Ec, El.
Qed.

(** [X10] The validation of the handler is at least as strict as the input
    schemas the server advertises: arguments it accepts for an advertised
    tool have every key the advertised schema requires, and every
    advertised property they carry has the advertised type. *)
Theorem validated_arguments_conform (tool : Tool) (obj : JsObject) :
  In tool list_tools ->
  validates (tool_name tool) (Some obj) = true ->
  conforms tool obj = true.
Proof.
  intros [<-|[<-|[]]]; unfold validates; simpl String.eqb; cbv iota.
  - destruct (SendMessageSchema_parse (Some obj)) as [issues|parsed] eqn:E;
      [discriminate|]. intros _.
    unfold SendMessageSchema_parse, Zod.field in E.
    destruct (Zod.optional Zod.string_ ["server"] (get "server" obj)) as [i1|s] eqn:Es;
      destruct (Zod.string_ ["channel"] (get "channel" obj)) as [i2|c] eqn:Ec;
      destruct (Zod.string_ ["message"] (get "message" obj)) as [i3|m] eqn:Em;
      try discriminate.
    apply string_inv in Ec, Em. apply optional_string_inv in Es.
    unfold conforms, has_key, well_typed. simpl. rewrite Ec, Em, Es.
    destruct s; reflexivity.
  - destruct (ReadMessagesSchema_parse (Some obj)) as [issues|parsed] eqn:E;
      [discriminate|]. intros _.
    unfold ReadMessagesSchema_parse, Zod.field in E.
    destruct (Zod.optional Zod.string_ ["server"] (get "server" obj)) as [i1|s] eqn:Es;
      destruct (Zod.string_ ["channel"] (get "channel" obj)) as [i2|c] eqn:Ec;
      destruct (limit_schema ["limit"] (get "limit" obj)) as [i3|l] eqn:El;
      try discriminate.
    apply string_inv in Ec. apply optional_string_inv in Es.
    apply limit_schema_iff in El.
    unfold conforms, has_key, well_typed. simpl. rewrite Ec, Es.
    destruct s, El as [[-> _]|[-> _]]; reflexivity.
Qed.

Lemma validated_arguments_conform_witness :
  conforms (mkTool "read-messages" "Read recent messages from a Mezon channel"
              [ mkProperty "server" "string" server_description None;
                mkProperty "channel" "string" channel_description None;
                mkProperty "limit" "number" "Number of messages to fetch (max 100)"
                  (Some (JNumber (inject_Z 50))) ]
              ["channel"])
           [("channel", JString "random"); ("limit", JNumber 5)] = true.
Proof.
  apply validated_arguments_conform; [|reflexivity].
  simpl. auto.
Defined.

Lemma SendMessageSchema_accepts_witness :
  SendMessageSchema_parse
    (Some [("extra", JBool true); ("message", JString "hi"); ("channel", JString "general")])
  = inr (mkSendMessageArgs None "general" "hi").
Proof.
  apply (proj1 (SendMessageSchema_accepts
                  [("extra", JBool true); ("message", JString "hi");
                   ("channel", JString "general")]
                  (mkSendMessageArgs None "general" "hi"))).
  repeat split.
Defined.

Lemma ReadMessagesSchema_accepts_witness :
  ReadMessagesSchema_parse (Some [("channel", JString "random")])
  = inr (mkReadMessagesArgs None "random" (inject_Z 50)).
Proof.
  apply (proj1 (ReadMessagesSchema_accepts [("channel", JString "random")]
                  (mkReadMessagesArgs None "random" (inject_Z 50)))).
  split; [reflexivity|]. split; [reflexivity|]. left. split; reflexivity.
Defined.

(** [X11] A call of the handler looks the server and the channel up and then
    does at most one more thing.  For [send-message] that is one send of the
    message as given to the resolved channel, which is text-capable, and
    only after the arguments were accepted and the channel resolved; for
    [read-messages] it is one fetch from the resolved channel with the
    accepted limit, a number from 1 to 100.  Nothing is sent by
    [read-messages] or by an unknown tool. *)
Theorem handler_calls {L : LowerCase}
        (client : MezonClient) (name : string) (args : option JsObject) :
  exists lookups action,
    trace (handler client name args) = (lookups ++ action)%list /\
    forallb is_lookup lookups = true /\
    (action = [] \/
     (name = "send-message" /\
      exists parsed channel,
        SendMessageSchema_parse args = inr parsed /\
        findChannel client (sm_channel parsed) None = (lookups, inr channel) /\
        isTextChannel channel = true /\
        action = [ChannelSend (channel_id channel) (sm_message parsed)]) \/
     (name = "read-messages" /\
      exists parsed channel,
        ReadMessagesSchema_parse args = inr parsed /\
        findChannel client (rm_channel parsed) None = (lookups, inr channel) /\
        isTextChannel channel = true /\
        1 <= rm_limit parsed <= 100 /\
        action = [MessagesFetch (channel_id channel) (rm_limit parsed)])).
Proof.
  unfold handler. rewrite try_on_error. cbn [trace fst].
  destruct (String.eqb_spec name "send-message") as [->|_];
    [|destruct (String.eqb_spec name "read-messages") as [->|_]].
  - rewrite send_message_runs.
    destruct (SendMessageSchema_parse args) as [issues|parsed] eqn:Ep.
    { exists [], []. auto. }
    pose proof (findChannel_lookups client (sm_channel parsed) None) as Hl.
    destruct (findChannel client (sm_channel parsed) None) as [t [e|channel]] eqn:Ec.
    { exists t, []. rewrite app_nil_r. auto. }
    exists t, [ChannelSend (channel_id channel) (sm_message parsed)].
    split; [reflexivity|]. split; [exact Hl|]. right. left.
    split; [reflexivity|]. exists parsed, channel.
    split; [reflexivity|]. split; [exact Ec|].
    split; [exact (findChannel_text client _ _ _ _ Ec)|reflexivity].
  - rewrite read_messages_runs.
    destruct (ReadMessagesSchema_parse args) as [issues|parsed] eqn:Ep.
    { exists [], []. auto. }
    pose proof (findChannel_lookups client (rm_channel parsed) None) as Hl.
    destruct (findChannel client (rm_channel parsed) None) as [t [e|channel]] eqn:Ec.
    { exists t, []. rewrite app_nil_r. auto. }
    exists t, [MessagesFetch (channel_id channel) (rm_limit parsed)].
    split; [reflexivity|]. split; [exact Hl|]. right. right.
    split; [reflexivity|]. exists parsed, channel.
    split; [reflexivity|]. split; [exact Ec|].
    split; [exact (findChannel_text client _ _ _ _ Ec)|].
    split; [exact (parsed_limit_range _ _ Ep)|reflexivity].
  - exists [], []. auto.
Qed.

(** [X12] A successful [send-message] went through accepted arguments, a
    resolved channel and one successful send of the message as given; its
    confirmation is the fixed sentence with the name of the channel after a
    [#], the name of the server of the channel and the ID of the sent
    message. *)
Theorem send_message_result {L : LowerCase}
        (client : MezonClient) (args : option JsObject)
        (t : list Effect) (r : ToolResult) :
  handler client "send-message" args = (t, inr r) ->
  exists parsed lookups channel sent_id,
    SendMessageSchema_parse args = inr parsed /\
    findChannel client (sm_channel parsed) None = (lookups, inr channel) /\
    channel_send client channel (sm_message parsed) = inr sent_id /\
    t = (lookups ++ [ChannelSend (channel_id channel) (sm_message parsed)])%list /\
    text r = "Message sent successfully to #" ++ channel_name channel
             ++ " in " ++ channel_guild_name channel
             ++ ". Message ID: " ++ sent_id /\
    includes ("#" ++ channel_name channel) (text r) = true /\
    includes (channel_guild_name channel) (text r) = true /\
    includes sent_id (text r) = true.
Proof.
  unfold handler. simpl String.eqb. cbv iota.
  intros E. apply try_on_error_returns in E.
  rewrite send_message_runs in E.
  destruct (SendMessageSchema_parse args) as [issues|parsed] eqn:Ep; [discriminate|].
  destruct (findChannel client (sm_channel parsed) None)
    as [lookups [e|channel]] eqn:Ec; [discriminate|].
  destruct (channel_send client channel (sm_message parsed)) as [e|sent_id] eqn:Es;
    [discriminate|].
  injection E as <- <-.
  exists parsed, lookups, channel, sent_id.
  split; [reflexivity|]. split; [exact Ec|]. split; [exact Es|].
  split; [reflexivity|]. split; [reflexivity|].
  cbn [text]. unfold confirmation.
  pose proof (includes_refl (channel_guild_name channel)) as Hg.
  pose proof (includes_refl sent_id) as Hs.
  split; [|split; shown_in_message].
  change ("Message sent successfully to #" ++ channel_name channel
          ++ " in " ++ channel_guild_name channel ++ ". Message ID: " ++ sent_id)
    with ("Message sent successfully to "
          ++ "#" ++ channel_name channel
          ++ " in " ++ channel_guild_name channel ++ ". Message ID: " ++ sent_id).
  apply includes_app_r.
  rewrite <- (append_assoc "#" (channel_name channel)).
  apply includes_here.
Qed.

Lemma send_message_result_witness :
  exists sent_id,
    channel_send (Scenario.platform [Scenario.acme]) Scenario.general "hi" = inr sent_id /\
    includes sent_id "Message sent successfully to #general in Acme. Message ID: M1" = true.
Proof.
  destruct (send_message_result (L := ascii_LowerCase)
              (Scenario.platform [Scenario.acme])
              (Some [("channel", JString "general"); ("message", JString "hi")])
              [ChannelsFetch "general"; ChannelSend "C1" "hi"]
              (mkToolResult "Message sent successfully to #general in Acme. Message ID: M1")
              eq_refl)
    as (parsed & lookups & channel & sent_id & Ep & Ec & Es & _ & _ & _ & _ & Hid).
  injection Ep as <-. injection Ec as _ <-.
  exists sent_id. split; [exact Es|exact Hid].
Defined.

(** [X13] What a call of the handler throws is always an [Error], never the
    [ZodError] of a failed parse: refused arguments are reported, before
    anything is asked of the platform, as one error whose message is
    [Invalid arguments: ] followed by [path: message] for each issue,
    separated by commas; an error of the channel resolution is thrown on as
    it is. *)
Theorem handler_errors {L : LowerCase}
        (client : MezonClient) (name : string) (args : option JsObject) :
  (forall e, outcome (handler client name args) = inl e ->
             exists k m, e = JsError k m) /\
  (forall issues,
     name = "send-message" /\ SendMessageSchema_parse args = inl issues \/
     name = "read-messages" /\ ReadMessagesSchema_parse args = inl issues ->
     handler client name args
     = ([], inl (JsError ValidationError
                   ("Invalid arguments: " ++ join ", " (map show_issue issues))))) /\
  (forall parsed t k m,
     name = "send-message" ->
     SendMessageSchema_parse args = inr parsed ->
     findChannel client (sm_channel parsed) None = (t, inl (JsError k m)) ->
     handler client name args = (t, inl (JsError k m))) /\
  (forall parsed t k m,
     name = "read-messages" ->
     ReadMessagesSchema_parse args = inr parsed ->
     findChannel client (rm_channel parsed) None = (t, inl (JsError k m)) ->
     handler client name args = (t, inl (JsError k m))).
Proof.
  split; [|split; [|split]].
  - intros e. unfold handler. rewrite try_on_error. cbn [outcome snd].
    destruct (outcome _) as [[k m|errors]|r]; try discriminate.
    + intros [= <-]. now exists k, m.
    + intros [= <-]. eexists. eexists. reflexivity.
  - intros issues [[-> E]|[-> E]]; unfold handler; simpl String.eqb; cbv iota;
      rewrite try_on_error.
    + rewrite send_message_runs, E. reflexivity.
    + rewrite read_messages_runs, E. reflexivity.
  - intros parsed t k m -> Ep Ec. unfold handler. simpl String.eqb. cbv iota.
    rewrite try_on_error, send_message_runs, Ep, Ec. reflexivity.
  - intros parsed t k m -> Ep Ec. unfold handler. simpl String.eqb. cbv iota.
    rewrite try_on_error, read_messages_runs, Ep, Ec. reflexivity.
Qed.

Lemma handler_errors_witness :
  handler (Scenario.platform [Scenario.acme]) "send-message"
    (Some [("channel", JString "general")])
  = ([], inl (JsError ValidationError "Invalid arguments: message: Required")) /\
  exists m,
    handler (Scenario.platform [Scenario.acme]) "read-messages"
      (Some [("channel", JString "nowhere")])
    = ([ChannelsFetch "nowhere"], inl (JsError NotFound m)).
Proof.
  split.
  - apply (proj1 (proj2 (handler_errors (Scenario.platform [Scenario.acme])
                           "send-message" (Some [("channel", JString "general")])))
             [mkIssue ["message"] "Required"]).
    left. split; reflexivity.
  - eexists.
    apply (proj2 (proj2 (proj2
             (handler_errors (Scenario.platform [Scenario.acme]) "read-messages"
                (Some [("channel", JString "nowhere")]))))
             (mkReadMessagesArgs None "nowhere" (inject_Z 50)));
      reflexivity.
Defined.

(** [X14] The handler knows exactly the tools the server advertises, by
    their exact names.  A call of any other name fails with
    [Unknown tool: name] whatever its arguments, which are not looked at,
    and asks nothing of the platform; a call of an advertised tool whose
    arguments are refused fails with a validation error. *)
Theorem advertised_tools_handled {L : LowerCase} (client : MezonClient) (name : string)
        (args : option JsObject) :
  (In name (map tool_name list_tools)
   <-> name = "send-message" \/ name = "read-messages") /\
  (~ In name (map tool_name list_tools) ->
   handler client name args
   = ([], inl (JsError UnknownTool ("Unknown tool: " ++ name)))) /\
  (In name (map tool_name list_tools) ->
   validates name args = false ->
   exists m, handler client name args = ([], inl (JsError ValidationError m))).
Proof.
  assert (Hnames : In name (map tool_name list_tools)
                   <-> name = "send-message" \/ name = "read-messages").
  { simpl. split; [intros [H|[H|[]]]; auto|intros [H|H]; auto]. }
  split; [exact Hnames|]. split.
  - intros Hnot. unfold handler.
    destruct (String.eqb_spec name "send-message") as [E|_];
      [destruct Hnot; apply Hnames; auto|].
    destruct (String.eqb_spec name "read-messages") as [E|_];
      [destruct Hnot; apply Hnames; auto|].
    reflexivity.
  - intros Hin Hrefused. apply Hnames in Hin. unfold handler.
    rewrite try_on_error. unfold validates in Hrefused.
    destruct Hin as [-> | ->]; simpl String.eqb in *; cbv iota in *.
    + rewrite send_message_runs.
      destruct (SendMessageSchema_parse args); [|discriminate].
      eexists. reflexivity.
    + rewrite read_messages_runs.
      destruct (ReadMessagesSchema_parse args); [|discriminate].
      eexists. reflexivity.
Qed.

Lemma advertised_tools_handled_witness :
  handler (Scenario.platform [Scenario.acme]) "Send-Message"
    (Some [("channel", JString "general"); ("message", JString "hi")])
  = ([], inl (JsError UnknownTool "Unknown tool: Send-Message")) /\
  exists m,
    handler (Scenario.platform [Scenario.acme]) "send-message" None
    = ([], inl (JsError ValidationError m)).
Proof.
  split.
  - apply (proj1 (proj2 (advertised_tools_handled (Scenario.platform [Scenario.acme])
                           "Send-Message"
                           (Some [("channel", JString "general");
                                  ("message", JString "hi")])))).
    simpl. intros [H|[H|[]]]; discriminate H.
  - apply (proj2 (proj2 (advertised_tools_handled (Scenario.platform [Scenario.acme])
                           "send-message" None))).
    + simpl. auto.
    + reflexivity.
Defined.

(** ** Further properties of startup *)

(** [X15] The process survives its start exactly when the token is set and
    not empty, the login with that token succeeds and the connection of the
    transport succeeds; it then has logged in, connected and written its
    one line, in this order.  The login is only ever attempted with the
    token of the environment, and the transport is connected only after a
    successful login. *)
Theorem start_survives (client : MezonClient) (token : option string)
        (connect : Exception + unit) :
  (alive (start client token connect) = true
   <-> exists tok, token = Some tok /\ truthy tok = true /\
                   login client tok = inr tt /\ connect = inr tt) /\
  (alive (start client token connect) = true ->
   exists tok,
     start client token connect
     = [ClientLogin tok; ServerConnect;
        ConsoleError "Mezon MCP Clan running on stdio" None]) /\
  (forall tok, In (ClientLogin tok) (start client token connect) ->
               token = Some tok) /\
  (In ServerConnect (start client token connect) ->
   exists tok, token = Some tok /\ login client tok = inr tt).
Proof.
  unfold start, main, main_try.
  destruct token as [tok|]; simpl.
  2: { split; [split; [discriminate|intros (tok & H & _); discriminate H]|].
       split; [discriminate|]. split.
       - intros tok [H|[H|[]]]; discriminate H.
       - intros [H|[H|[]]]; discriminate H. }
  destruct (truthy tok) eqn:Htok; simpl.
  2: { split; [split; [discriminate|]|].
       - intros (tok' & [= <-] & H & _). congruence.
       - split; [discriminate|]. split.
         + intros tok' [H|[H|[]]]; discriminate H.
         + intros [H|[H|[]]]; discriminate H. }
  destruct (login client tok) as [e|[]] eqn:Hlogin; simpl.
  { split; [split; [discriminate|]|].
    - intros (tok' & [= <-] & _ & H & _). congruence.
    - split; [discriminate|]. split.
      + intros tok' [[= <-]|[H|[H|[]]]]; try discriminate H. reflexivity.
      + intros [H|[H|[H|[]]]]; discriminate H. }
  destruct connect as [e|[]]; simpl.
  { split; [split; [discriminate|]|].
    - intros (tok' & _ & _ & _ & H). discriminate H.
    - split; [discriminate|]. split.
      + intros tok' [[= <-]|[H|[H|[H|[]]]]]; try discriminate H. reflexivity.
      + intros _. now exists tok. }
  split; [split; [intros _; now exists tok|reflexivity]|].
  split; [intros _; now exists tok|]. split.
  - intros tok' [[= <-]|[H|[H|[]]]]; try discriminate H. reflexivity.
  - intros _. now exists tok.
Qed.

Lemma start_survives_witness :
  exists tok,
    start (Scenario.platform []) (Some "secret") (inr tt)
    = [ClientLogin tok; ServerConnect;
       ConsoleError "Mezon MCP Clan running on stdio" None].
Proof.
  apply (proj1 (proj2 (start_survives (Scenario.platform []) (Some "secret") (inr tt)))).
  reflexivity.
Defined.

(** [X16] The answer of the handler depends on the arguments through
    [channel], [message] and [limit] only: two argument objects that agree
    on these keys and carry a valid [server] (none, or any string) get the
    same effects and the same result.  The server a call names has no part
    in it. *)
Theorem handler_depends_on {L : LowerCase} (client : MezonClient) (name : string)
        (obj1 obj2 : JsObject) (s1 s2 : option string) :
  get "server" obj1 = option_map JString s1 ->
  get "server" obj2 = option_map JString s2 ->
  get "channel" obj1 = get "channel" obj2 ->
  get "message" obj1 = get "message" obj2 ->
  get "limit" obj1 = get "limit" obj2 ->
  handler client name (Some obj1) = handler client name (Some obj2).
Proof.
  intros Hs1 Hs2 Hc Hm Hl.
  apply (optional_string_inv ["server"]) in Hs1, Hs2.
  unfold handler. f_equal.
  destruct (String.eqb name "send-message");
    [|destruct (String.eqb name "read-messages"); [|reflexivity]].
  - rewrite !send_message_runs.
    unfold SendMessageSchema_parse, Zod.field. rewrite Hs1, Hs2, Hc, Hm.
    destruct (Zod.string_ ["channel"] (get "channel" obj2)) as [ic|c];
      destruct (Zod.string_ ["message"] (get "message" obj2)) as [im|m];
      reflexivity.
  - rewrite !read_messages_runs.
    unfold ReadMessagesSchema_parse, Zod.field. rewrite Hs1, Hs2, Hc, Hl.
    destruct (Zod.string_ ["channel"] (get "channel" obj2)) as [ic|c];
      destruct (limit_schema ["limit"] (get "limit" obj2)) as [il|l];
      reflexivity.
Qed.

Lemma handler_depends_on_witness :
  handler TwoServers.both "send-message" (TwoServers.to_general "S1")
  = handler TwoServers.both "send-message" (TwoServers.to_general "S2").
Proof.
  apply (handler_depends_on TwoServers.both "send-message"
           [("server", JString "S1"); ("channel", JString "general");
            ("message", JString "hi")]
           [("server", JString "S2"); ("channel", JString "general");
            ("message", JString "hi")]
           (Some "S1") (Some "S2")); reflexivity.
Defined.

(** ** ASCII names *)

(** On a directory and identifiers of ASCII characters the resolvers and the
    handler do not depend on the member of [LowerCase]: what the worked
    cases compute with the ASCII member holds for every member. *)

Section AsciiNames.

Context {L : LowerCase}.

Variable client : MezonClient.

Lemma clan_name_matches_on_ascii (ident : string) (g : Clan) :
  is_ascii ident = true -> is_ascii (clan_name g) = true ->
  clan_name_matches (L := L) ident g
  = clan_name_matches (L := ascii_LowerCase) ident g.
Proof.
  intros Hi Hg. unfold clan_name_matches.
  now rewrite (toLowerCase_ascii _ Hi), (toLowerCase_ascii _ Hg).
Qed.

Lemma channel_name_matches_on_ascii (ident : string) (c : Channel) :
  is_ascii ident = true -> is_ascii (channel_name c) = true ->
  channel_name_matches (L := L) ident c
  = channel_name_matches (L := ascii_LowerCase) ident c.
Proof.
  intros Hi Hc. unfold channel_name_matches.
  now rewrite (toLowerCase_ascii _ Hi), (toLowerCase_ascii _ Hc).
Qed.

Lemma findClan_by_name_on_ascii (ident : string) :
  forallb ascii_guild (clans client) = true -> is_ascii ident = true ->
  findClan_by_name (L := L) client ident
  = findClan_by_name (L := ascii_LowerCase) client ident.
Proof.
  intros Hall Hi. unfold findClan_by_name.
  assert (E : filter (clan_name_matches (L := L) ident) (clans client)
              = filter (clan_name_matches (L := ascii_LowerCase) ident) (clans client)).
  { apply filter_ext_in. intros g Hg.
    apply clan_name_matches_on_ascii; [exact Hi|].
    rewrite forallb_forall in Hall. specialize (Hall g Hg).
    unfold ascii_guild in Hall. now apply andb_true_iff in Hall. }
  now rewrite E.
Qed.

Lemma findClan_on_ascii (ident : string) (server : option string) :
  ascii_resolution client ident server = true ->
  findClan (L := L) client server = findClan (L := ascii_LowerCase) client server.
Proof.
  unfold ascii_resolution. intros H.
  apply andb_true_iff in H. destruct H as [H Hserver].
  apply andb_true_iff in H. destruct H as [Hall _].
  destruct server as [s|]; [|reflexivity].
  apply andb_true_iff in Hserver. destruct Hserver as [Hs _].
  unfold findClan. destruct (truthy s); [|reflexivity]. simpl negb. cbv iota.
  destruct (clans_fetch client s) as [[g|]|]; try reflexivity.
  now rewrite findClan_by_name_on_ascii.
Qed.

(** The server a resolution over ASCII names returns has ASCII names. *)
Lemma findClan_ascii_guild (ident : string) (server : option string)
      (t : list Effect) (g : Clan) :
  ascii_resolution client ident server = true ->
  findClan (L := ascii_LowerCase) client server = (t, inr g) ->
  ascii_guild g = true.
Proof.
  unfold ascii_resolution. intros H.
  apply andb_true_iff in H. destruct H as [H Hserver].
  apply andb_true_iff in H. destruct H as [Hall _].
  rewrite forallb_forall in Hall.
  assert (Hdefault : findClan_default client = (t, inr g) -> ascii_guild g = true).
  { unfold findClan_default.
    destruct (clans client) as [|g1 [|g2 rest]]; try discriminate.
    intros [= _ <-]. apply Hall. simpl. auto. }
  destruct server as [s|]; [|exact Hdefault].
  apply andb_true_iff in Hserver. destruct Hserver as [_ Hfetch].
  unfold findClan. destruct (truthy s); [|exact Hdefault]. simpl negb. cbv iota.
  destruct (clans_fetch client s) as [[g0|]|].
  - now intros [= _ <-].
  - discriminate.
  - unfold findClan_by_name.
    destruct (filter (clan_name_matches s) (clans client))
      as [|g1 [|g2 rest]] eqn:E; try discriminate.
    intros [= _ <-]. apply Hall.
    apply (proj1 (filter_In (clan_name_matches (L := ascii_LowerCase) s)
                    g1 (clans client))).
    rewrite E. simpl. auto.
Qed.

Lemma findChannel_on_ascii (ident : string) (server : option string) :
  ascii_resolution client ident server = true ->
  findChannel (L := L) client ident server
  = findChannel (L := ascii_LowerCase) client ident server.
Proof.
  intros H. unfold findChannel. rewrite (findClan_on_ascii ident server H).
  destruct (findClan (L := ascii_LowerCase) client server) as [t [e|g]] eqn:Eclan;
    [reflexivity|].
  pose proof (findClan_ascii_guild _ _ _ _ H Eclan) as Hg.
  unfold ascii_guild in Hg. apply andb_true_iff in Hg. destruct Hg as [_ Hchannels].
  rewrite forallb_forall in Hchannels.
  assert (Hi : is_ascii ident = true).
  { unfold ascii_resolution in H. apply andb_true_iff in H. destruct H as [H _].
    now apply andb_true_iff in H. }
  cbn [bind]. f_equal.
  destruct (channels_fetch client ident) as [fetched|]; [reflexivity|].
  unfold findChannel_by_name.
  assert (E : filter (channel_name_matches (L := L) ident) (channels_cache g)
              = filter (channel_name_matches (L := ascii_LowerCase) ident)
                  (channels_cache g)).
  { apply filter_ext_in. intros c Hc.
    apply channel_name_matches_on_ascii; [exact Hi|now apply Hchannels]. }
  now rewrite E.
Qed.

Lemma handler_on_ascii (name : string) (args : option JsObject) :
  forallb ascii_guild (clans client) = true ->
  ascii_channel_argument args = true ->
  handler (L := L) client name args
  = handler (L := ascii_LowerCase) client name args.
Proof.
  intros Hall Hargs. unfold handler. f_equal.
  assert (Hres : forall c, is_ascii c = true ->
                           ascii_resolution client c None = true).
  { intros c Hc. unfold ascii_resolution. now rewrite Hall, Hc. }
  destruct (String.eqb name "send-message");
    [|destruct (String.eqb name "read-messages"); [|reflexivity]].
  - rewrite !send_message_runs.
    destruct (SendMessageSchema_parse args) as [issues|parsed] eqn:Ep;
      [reflexivity|].
    rewrite (findChannel_on_ascii (sm_channel parsed) None); [reflexivity|].
    apply Hres. destruct args as [obj|]; [|discriminate].
    unfold SendMessageSchema_parse, Zod.field in Ep. simpl in Hargs.
    destruct (Zod.optional Zod.string_ ["server"] (get "server" obj)) as [i1|s0];
      destruct (Zod.string_ ["channel"] (get "channel" obj)) as [i2|c] eqn:Ec;
      destruct (Zod.string_ ["message"] (get "message" obj)) as [i3|m];
      try discriminate.
    injection Ep as <-. apply string_inv in Ec. now rewrite Ec in Hargs.
  - rewrite !read_messages_runs.
    destruct (ReadMessagesSchema_parse args) as [issues|parsed] eqn:Ep;
      [reflexivity|].
    rewrite (findChannel_on_ascii (rm_channel parsed) None); [reflexivity|].
    apply Hres. destruct args as [obj|]; [|discriminate].
    unfold ReadMessagesSchema_parse, Zod.field in Ep. simpl in Hargs.
    destruct (Zod.optional Zod.string_ ["server"] (get "server" obj)) as [i1|s0];
      destruct (Zod.string_ ["channel"] (get "channel" obj)) as [i2|c] eqn:Ec;
      destruct (limit_schema ["limit"] (get "limit" obj)) as [i3|l];
      try discriminate.
    injection Ep as <-. apply string_inv in Ec. now rewrite Ec in Hargs.
Qed.

End AsciiNames.

(** The cases in which the claims fail, for every member of the class. *)

Section EveryLowerCase.

Context {L : LowerCase}.

Lemma ambiguous_entry_for_all : ~ ambiguous_as_specified TwoTests.client "Test".
Proof.
  intros (m & E & H).
  rewrite (findClan_on_ascii TwoTests.client "Test" (Some "Test") eq_refl) in E.
  vm_compute in E. injection E as <-.
  assert (Hin : In TwoTests.S1 (filter (clan_name_matches "Test") (clans TwoTests.client))).
  { apply filter_In. split; [simpl; auto|].
    now rewrite clan_name_matches_on_ascii. }
  specialize (H _ Hin). vm_compute in H. discriminate.
Qed.

Lemma no_fall_through_for_all :
  outcome (findChannel WrongTypeCase.client "777" None)
  <> outcome (findChannel_by_name WrongTypeCase.acme "777").
Proof.
  rewrite (findChannel_on_ascii WrongTypeCase.client "777" None eq_refl).
  unfold findChannel_by_name.
  rewrite (filter_ext_in (channel_name_matches "777")
             (channel_name_matches (L := ascii_LowerCase) "777")).
  - vm_compute. discriminate.
  - intros c [<-|[<-|[]]]; now apply channel_name_matches_on_ascii.
Qed.

Lemma hash_prefix_for_all :
  ~ same_resolution (outcome (findChannel HashNames.client "#general" None))
                    (outcome (findChannel HashNames.client "general" None)).
Proof.
  rewrite (findChannel_on_ascii HashNames.client "#general" None eq_refl),
    (findChannel_on_ascii HashNames.client "general" None eq_refl).
  vm_compute. exact (fun H => H).
Qed.

Lemma inserted_hash_for_all : ~ inserted_hash_always_matches.
Proof.
  intros H. specialize (H HashNames.a_hash_b 3%nat).
  rewrite channel_name_matches_on_ascii in H by reflexivity.
  vm_compute in H. discriminate.
Qed.

Lemma over_limit_for_all :
  ~ at_most_limit Generous.client Generous.one_from_random 1.
Proof.
  intros H.
  assert (E : handler Generous.client "read-messages" Generous.one_from_random
              = ([ChannelsFetch "random"; MessagesFetch "C2" 1],
                 inr (mkToolResult
                        (JSON.stringify
                           (map (format_message Scenario.random)
                              [Scenario.hello; Scenario.again]))))).
  { rewrite (handler_on_ascii Generous.client "read-messages"
               Generous.one_from_random) by reflexivity.
    vm_compute. reflexivity. }
  specialize (H _ _ _ E (read_stringify _)).
  revert H. apply Qlt_not_le. reflexivity.
Qed.

Lemma server_argument_dropped_for_all :
  (exists m, handler TwoServers.both "send-message" (TwoServers.to_general "S2")
             = ([], inl (JsError MultiServerNoDefault m))) /\
  handler TwoServers.only_acme "send-message" (TwoServers.to_general "Beta")
  = ([ChannelsFetch "general"; ChannelSend "C1" "hi"],
     inr (mkToolResult "Message sent successfully to #general in Acme. Message ID: M1")).
Proof.
  split.
  - rewrite (handler_on_ascii TwoServers.both "send-message"
               (TwoServers.to_general "S2")) by reflexivity.
    eexists. vm_compute. reflexivity.
  - rewrite (handler_on_ascii TwoServers.only_acme "send-message"
               (TwoServers.to_general "Beta")) by reflexivity.
    vm_compute. reflexivity.
Qed.

End EveryLowerCase.
